(** * image-to-scan: quadrilateral selection and perspective rectification

    A shallow embedding of [src/image_to_scan/core.py] and the properties
    its specification states about it.

    Numeric model.  The contours handed to this code by OpenCV are [int32]
    pixel coordinates; sums and differences of two of them do not wrap.
    Coordinates are modelled as [Z].  [four_point_transform] computes its
    edge lengths in [float32]; two readings of these lines are given.  The
    integer one ([edge_sq], [int_sqrt], [maxWidth], [maxHeight]) takes the
    arithmetic as exact.  The binary32 one ([f32_edge_sq], [f32_int_sqrt],
    [maxWidth_f32], [maxHeight_f32]) follows the float32 steps, with the
    correctly rounded square root.  [dims_f32_exact] proves that the two
    agree whenever the corners are pixel positions of an image whose
    squared diagonal is below [2^24]; beyond it the rounded square root
    can reach the next integer.  The real-valued reading of the specification
    (Euclidean lengths, floor) is stated over [R].

    Effects.  Python exceptions are modelled by the [outcome] sum; the two
    list objects that [findLargestCountours] pops from are threaded as an
    explicit store; the OpenCV primitives are an interface ([Cv2]) whose
    operations may raise.  Logging and the display calls taken only when the
    logger is at DEBUG level are left out. *)

From Stdlib Require Import ZArith Lia Reals Lra Ascii String.
From stdpp Require Import base tactics option list.

Local Open Scope Z_scope.

(** ** Python exceptions and the error monad *)

Inductive exn : Type :=
| ValueError   (* max() / argmin of an empty sequence, bad reshape *)
| IndexError   (* list index or pop index out of range *)
| CvError.     (* cv2.error raised by a raster primitive *)

Inductive outcome (A : Type) : Type :=
| Returned (a : A)
| Raised (e : exn).
Arguments Returned {A} a.
Arguments Raised {A} e.

Global Instance outcome_ret : MRet outcome := fun _ a => Returned a.
Global Instance outcome_bind : MBind outcome := fun _ _ f m =>
  match m with
  | Returned a => f a
  | Raised e => Raised e
  end.

(** ** Points, polygons and the ordered rectangle *)

Definition point : Type := Z * Z.

(** A simplified contour, an array of shape (N, 1, 2). *)
Definition polygon : Type := list point.

(** The (4, 2) array [rect] of [order_points], rows 0..3. *)
Record rect : Type := Rect { rect0 : point; rect1 : point; rect2 : point; rect3 : point }.

Definition psum (p : point) : Z := p.1 + p.2.     (* pts.sum(axis=1) *)
Definition pdiff (p : point) : Z := p.2 - p.1.    (* np.diff(pts, axis=1) *)

(** ** numpy's argmin / argmax: index of the first extremal entry *)

Fixpoint argmin_loop (l : list Z) (i : nat) (best : Z) (best_i : nat) : nat :=
  match l with
  | [] => best_i
  | x :: r => if x <? best then argmin_loop r (S i) x i
              else argmin_loop r (S i) best best_i
  end.

Definition argmin (l : list Z) : outcome nat :=
  match l with
  | [] => Raised ValueError
  | x :: r => Returned (argmin_loop r 1 x 0)
  end.

Fixpoint argmax_loop (l : list Z) (i : nat) (best : Z) (best_i : nat) : nat :=
  match l with
  | [] => best_i
  | x :: r => if best <? x then argmax_loop r (S i) x i
              else argmax_loop r (S i) best best_i
  end.

Definition argmax (l : list Z) : outcome nat :=
  match l with
  | [] => Raised ValueError
  | x :: r => Returned (argmax_loop r 1 x 0)
  end.

(** Python / numpy indexing with a non-negative index: [l[i]]. *)
Definition getitem {A : Type} (l : list A) (i : nat) : outcome A :=
  match l !! i with
  | Some a => Returned a
  | None => Raised IndexError
  end.

(** ** order_points *)

Definition order_points (pts : list point) : outcome rect :=
  let s := psum <$> pts in
  i0 ← argmin s;
  r0 ← getitem pts i0;
  i2 ← argmax s;
  r2 ← getitem pts i2;
  let diff := pdiff <$> pts in
  i1 ← argmin diff;
  r1 ← getitem pts i1;
  i3 ← argmax diff;
  r3 ← getitem pts i3;
  mret (Rect r0 r1 r2 r3).

(** ** four_point_transform: destination geometry *)

(** [((p[0] - q[0]) ** 2) + ((p[1] - q[1]) ** 2)], the argument of [np.sqrt]. *)
Definition edge_sq (p q : point) : Z := (p.1 - q.1) ^ 2 + (p.2 - q.2) ^ 2.

(** [int(np.sqrt(n))] on the non-negative integer [n], the square root
    taken as exact.  The float32 square root truncates to the same integer
    for every [n] below [2^24] ([f32_int_sqrt_exact]). *)
Definition int_sqrt (n : Z) : Z := Z.sqrt n.

Definition maxWidth (r : rect) : Z :=
  let '(Rect tl tr br bl) := r in
  let widthA := int_sqrt (edge_sq br bl) in
  let widthB := int_sqrt (edge_sq tr tl) in
  Z.max widthA widthB.

Definition maxHeight (r : rect) : Z :=
  let '(Rect tl tr br bl) := r in
  let heightA := int_sqrt (edge_sq tr br) in
  let heightB := int_sqrt (edge_sq tl bl) in
  Z.max heightA heightB.

(** The array [dst] built from the two dimensions. *)
Definition dst_rect (w h : Z) : rect :=
  Rect (0, 0) (w - 1, 0) (w - 1, h - 1) (0, h - 1).

(** ** The OpenCV collaborator *)

Inductive color_code : Type := COLOR_BGR2GRAY | COLOR_GRAY2RGB.

Class Cv2 : Type := {
  image : Type;
  matrix : Type;
  contour : Type;
  (** (width, height) of a raster, i.e. [(img.shape[1], img.shape[0])]. *)
  size_wh : image → Z * Z;
  imread : string → outcome image;
  cvtColor : image → color_code → outcome image;
  bilateralFilter : image → Z → Z → Z → outcome image;
  medianBlur : image → Z → outcome image;
  Canny : image → Z → Z → outcome image;
  (** [cv2.findContours(edged, cv2.RETR_LIST, cv2.CHAIN_APPROX_NONE)[0]] *)
  findContours : image → outcome (list contour);
  (** [sorted(countours, key=cv2.contourArea, reverse=True)] *)
  sorted_by_contourArea : list contour → outcome (list contour);
  (** [cv2.approxPolyDP(cnt, 0.02 * cv2.arcLength(cnt, True), True)] *)
  approxPolyDP : contour → outcome polygon;
  (** [cv2.boundingRect(cnt)], the tuple (X, Y, W, H) *)
  boundingRect : contour → outcome (Z * Z * Z * Z);
  getPerspectiveTransform : rect → rect → outcome matrix;
  warpPerspective : image → matrix → Z * Z → outcome image;
  (** [cv2.createCLAHE(clipLimit=1.0, tileGridSize=(8, 8)).apply(img)] *)
  clahe_apply : image → outcome image;
  resize : image → Z * Z → outcome image;
  imwrite : string → image → outcome unit;
  (** the [re.sub] call of [save_image]: arguments suffix, extension, path *)
  re_sub_extension : string → string → string → string;
}.

(** The size contract of [cv2.warpPerspective] for a non-empty [dsize]. *)
Class Cv2Sized `{Cv2} : Prop := {
  warp_size : ∀ img M w h out,
    0 < w → 0 < h →
    warpPerspective img M (w, h) = Returned out → size_wh out = (w, h);
}.

(** A collaborator none of whose raster operations raises. *)
Class Cv2Returns `{Cv2} : Prop := {
  getPerspectiveTransform_returns : ∀ src dst, ∃ M, getPerspectiveTransform src dst = Returned M;
  warpPerspective_returns : ∀ img M d, ∃ out, warpPerspective img M d = Returned out;
  cvtColor_returns : ∀ img c, ∃ out, cvtColor img c = Returned out;
  clahe_apply_returns : ∀ img, ∃ out, clahe_apply img = Returned out;
  resize_returns : ∀ img d, ∃ out, resize img d = Returned out;
  imwrite_returns : ∀ p img, imwrite p img = Returned tt;
}.

Section WithCv2.
Context `{Cv2}.

Definition four_point_transform (img : image) (pts : list point) : outcome image :=
  rect ← order_points pts;
  let maxWidth := maxWidth rect in
  let maxHeight := maxHeight rect in
  let dst := dst_rect maxWidth maxHeight in
  M ← getPerspectiveTransform rect dst;
  warped ← warpPerspective img M (maxWidth, maxHeight);
  mret warped.

Definition save_image (src_file_path : string) (img : image)
    (suffix extension : string) : outcome unit :=
  let new_file_path := re_sub_extension suffix extension src_file_path in
  imwrite new_file_path img.

End WithCv2.

(** ** findLargestCountours: the two list objects it pops from *)

Record store (C : Type) : Type := Store { cntList : list C; cntWidths : list Z }.
Arguments Store {C} cntList cntWidths.
Arguments cntList {C} s.
Arguments cntWidths {C} s.

(** State-and-exception monad: a raised exception keeps the store as mutated so far. *)
Definition St (S A : Type) : Type := S → outcome A * S.

Global Instance St_ret {S} : MRet (St S) := fun _ a s => (Returned a, s).
Global Instance St_bind {S} : MBind (St S) := fun _ _ f m s =>
  match m s with
  | (Returned a, s') => f a s'
  | (Raised e, s') => (Raised e, s')
  end.

(** [max(l)] of Python on a list of ints. *)
Definition py_max (l : list Z) : outcome Z :=
  match l with
  | [] => Raised ValueError
  | x :: r => Returned (foldl (fun m y => if m <? y then y else m) x r)
  end.

(** [l.index(x)]: position of the first entry equal to [x]. *)
Fixpoint index_loop (x : Z) (l : list Z) (i : nat) : outcome nat :=
  match l with
  | [] => Raised ValueError
  | y :: r => if y =? x then Returned i else index_loop x r (S i)
  end.

Definition py_index (l : list Z) (x : Z) : outcome nat := index_loop x l 0.

(** [l.index(max(l))] *)
Definition index_of_max (l : list Z) : outcome nat :=
  m ← py_max l; py_index l m.

Section FindLargest.
Context {C : Type}.

(** [cntWidths.index(max(cntWidths))] *)
Definition widths_index_of_max : St (store C) nat := fun s =>
  (index_of_max (cntWidths s), s).

Definition cntList_getitem (i : nat) : St (store C) C := fun s =>
  (getitem (cntList s) i, s).

Definition cntWidths_getitem (i : nat) : St (store C) Z := fun s =>
  (getitem (cntWidths s) i, s).

(** [cntList.pop(i)] *)
Definition cntList_pop (i : nat) : St (store C) C := fun s =>
  match cntList s !! i with
  | Some c => (Returned c, Store (delete i (cntList s)) (cntWidths s))
  | None => (Raised IndexError, s)
  end.

(** [cntWidths.pop(i)] *)
Definition cntWidths_pop (i : nat) : St (store C) Z := fun s =>
  match cntWidths s !! i with
  | Some w => (Returned w, Store (cntList s) (delete i (cntWidths s)))
  | None => (Raised IndexError, s)
  end.

Definition findLargestCountours : St (store C) (list C * list Z) :=
  let newCntList := [] in
  let newCntWidths := [] in
  first_largest_cnt_pos ← widths_index_of_max;
  c ← cntList_getitem first_largest_cnt_pos;
  let newCntList := newCntList ++ [c] in
  w ← cntWidths_getitem first_largest_cnt_pos;
  let newCntWidths := newCntWidths ++ [w] in
  _ ← cntList_pop first_largest_cnt_pos;
  _ ← cntWidths_pop first_largest_cnt_pos;
  seccond_largest_cnt_pos ← widths_index_of_max;
  c ← cntList_getitem seccond_largest_cnt_pos;
  let newCntList := newCntList ++ [c] in
  w ← cntWidths_getitem seccond_largest_cnt_pos;
  let newCntWidths := newCntWidths ++ [w] in
  _ ← cntList_pop seccond_largest_cnt_pos;
  _ ← cntWidths_pop seccond_largest_cnt_pos;
  mret (newCntList, newCntWidths).

End FindLargest.

(** ** convert_object *)

(** [c.reshape(4, 2)] on an array of shape (N, 1, 2). *)
Definition reshape_4_2 (c : polygon) : outcome (list point) :=
  if (length c =? 4)%nat then Returned c else Raised ValueError.

Section Pipeline.
Context `{Cv2}.

(** The loop [for cnt in cnts] filling [screenCntList] and [scrWidths]. *)
Fixpoint collect_screens (cnts : list contour)
    (screenCntList : list polygon) (scrWidths : list Z)
    : outcome (list polygon * list Z) :=
  match cnts with
  | [] => mret (screenCntList, scrWidths)
  | cnt :: cnts' =>
      approx ← approxPolyDP cnt;
      let screenCnt := approx in
      if (length screenCnt =? 4)%nat then
        '(_, _, W, _) ← boundingRect cnt;
        collect_screens cnts' (screenCntList ++ [screenCnt]) (scrWidths ++ [W])
      else
        collect_screens cnts' screenCntList scrWidths
  end.

(** From [rect = order_points(pts)] to the final [return]: the code never
    executes [return None] once it is here. *)
Definition rectify_pts (img : image) (pts : list point)
    (file_path : string) (screen_size : option (Z * Z))
    (new_file_suffix : string) : outcome (option image) :=
  rect ← order_points pts;
  warped ← four_point_transform img pts;
  warp ← cvtColor warped COLOR_BGR2GRAY;
  warp ← clahe_apply warp;
  _ ← save_image file_path warp new_file_suffix "jpg";
  match screen_size with
  | Some sz =>
      resized ← resize warp sz;
      out ← cvtColor resized COLOR_GRAY2RGB;
      mret (Some out)
  | None =>
      out ← cvtColor warp COLOR_GRAY2RGB;
      mret (Some out)
  end.

(** [pts = screenCntList[0].reshape(4, 2)] and what follows it. *)
Definition rectify_first (img : image) (screenCntList : list polygon)
    (file_path : string) (screen_size : option (Z * Z))
    (new_file_suffix : string) : outcome (option image) :=
  c0 ← getitem screenCntList 0;
  pts ← reshape_4_2 c0;
  rectify_pts img pts file_path screen_size new_file_suffix.

(** The part of [convert_object] that follows the candidate loop:
    selection, the two guards, and rectification.  [None] is Python's
    [return None]. *)
Definition scan_screens (img : image)
    (screenCntList : list polygon) (scrWidths : list Z)
    (file_path : string) (screen_size : option (Z * Z))
    (new_file_suffix : string) : outcome (option image) :=
  '(screenCntList, scrWidths) ← (findLargestCountours (Store screenCntList scrWidths)).1;
  if negb (2 <=? length screenCntList)%nat then mret None
  else
    w0 ← getitem scrWidths 0;
    w1 ← getitem scrWidths 1;
    if negb (w0 =? w1) then mret None
    else rectify_first img screenCntList file_path screen_size new_file_suffix.

Definition convert_object (file_path : string) (screen_size : option (Z * Z))
    (new_file_suffix : string) : outcome (option image) :=
  img ← imread file_path;
  gray ← cvtColor img COLOR_BGR2GRAY;
  gray ← bilateralFilter gray 11 17 17;
  gray ← medianBlur gray 5;
  edged ← Canny gray 30 400;
  countours ← findContours edged;
  cnts ← sorted_by_contourArea countours;
  '(screenCntList, scrWidths) ← collect_screens cnts [] [];
  scan_screens img screenCntList scrWidths file_path screen_size new_file_suffix.

End Pipeline.

(** ** Specification-side vocabulary *)

(** [p] is the entry of [pts] that minimises [f], the earliest one among ties. *)
Definition first_min_at (f : point → Z) (pts : list point) (p : point) : Prop :=
  ∃ i : nat, pts !! i = Some p ∧
    ∀ (j : nat) (q : point), pts !! j = Some q → f p ≤ f q ∧ ((j < i)%nat → f p < f q).

(** [p] is the entry of [pts] that maximises [f], the earliest one among ties. *)
Definition first_max_at (f : point → Z) (pts : list point) (p : point) : Prop :=
  ∃ i : nat, pts !! i = Some p ∧
    ∀ (j : nat) (q : point), pts !! j = Some q → f q ≤ f p ∧ ((j < i)%nat → f q < f p).

(** Candidates as the specification speaks of them: a quadrilateral paired
    with its widthProxy.  The code keeps them in two parallel lists. *)
Abbreviation candidate := (polygon * Z)%type.

(** Euclidean length of the edge between two corners. *)
Definition euclid (p q : point) : R :=
  sqrt (IZR (p.1 - q.1) ^ 2 + IZR (p.2 - q.2) ^ 2)%R.

(** destWidth = floor(max(widthTop, widthBottom)) with widthTop = |TR-TL| and
    widthBottom = |BR-BL|, the corners in TL, TR, BR, BL order. *)
Definition spec_destWidth (r : rect) : Z :=
  let '(Rect tl tr br bl) := r in
  Int_part (Rmax (euclid tr tl) (euclid br bl)).

(** destHeight = floor(max(heightLeft, heightRight)) with heightLeft = |TL-BL|
    and heightRight = |TR-BR|. *)
Definition spec_destHeight (r : rect) : Z :=
  let '(Rect tl tr br bl) := r in
  Int_part (Rmax (euclid tl bl) (euclid tr br)).

(** The rows of a rectangle as a list, in index order. *)
Definition rect_rows (r : rect) : list point :=
  [rect0 r; rect1 r; rect2 r; rect3 r].

(** ** A concrete collaborator

    Rasters are reduced to their (width, height); a contour carries its
    simplified polygon and its bounding-box width; every operation returns. *)
Definition size_only_cv2 : Cv2 := {|
  image := Z * Z;
  matrix := rect * rect;
  contour := polygon * Z;
  size_wh := fun img => img;
  imread := fun _ => Returned (640, 480);
  cvtColor := fun img _ => Returned img;
  bilateralFilter := fun img _ _ _ => Returned img;
  medianBlur := fun img _ => Returned img;
  Canny := fun img _ _ => Returned img;
  findContours := fun _ => Returned [];
  sorted_by_contourArea := fun cnts => Returned cnts;
  approxPolyDP := fun cnt => Returned cnt.1;
  boundingRect := fun cnt => Returned (0, 0, cnt.2, 0);
  getPerspectiveTransform := fun src dst => Returned (src, dst);
  warpPerspective := fun _ _ dsize => Returned dsize;
  clahe_apply := fun img => Returned img;
  resize := fun _ sz => Returned sz;
  imwrite := fun _ _ => Returned tt;
  re_sub_extension := fun _ _ path => path;
|}.

Global Instance size_only_returns : @Cv2Returns size_only_cv2.
Proof. split; simpl; eauto. Qed.

Global Instance size_only_sized : @Cv2Sized size_only_cv2.
Proof. split. simpl. intros ? ? ? ? ? ? ? [= <-]. reflexivity. Qed.

(** ** Further vocabulary for the geometry *)

(** The point [p] moved by the vector (a, b). *)
Definition translate (a b : Z) (p : point) : point := (p.1 + a, p.2 + b).

Definition rect_map (f : point → point) (r : rect) : rect :=
  Rect (f (rect0 r)) (f (rect1 r)) (f (rect2 r)) (f (rect3 r)).

(** [p] is a pixel position of a raster of width [W] and height [H]. *)
Definition in_image (W H : Z) (p : point) : Prop :=
  0 ≤ p.1 < W ∧ 0 ≤ p.2 < H.

(** ** save_image: the path that is written

    The pattern of [re.sub] is a literal dot, then a greedy group of any
    characters, then the end anchor: the wildcard matches any character but
    a newline, and the anchor matches at the end of the string or just
    before a newline that ends it.  The replacement is the template
    made of the suffix, a dot and the extension; a template without a
    backslash stands for itself, and only such templates are covered. *)

Definition newline : ascii := "010"%char.
Definition dot : ascii := "."%char.
Definition backslash : ascii := "\"%char.

Fixpoint has_char (c : ascii) (s : string) : bool :=
  match s with
  | EmptyString => false
  | String d r => Ascii.eqb d c || has_char c r
  end.

(** Does the group followed by the anchor match from the start of [s]?  If
    so, what is left of [s] after the match: nothing, or the final newline. *)
Fixpoint dollar_tail (s : string) : option string :=
  match s with
  | EmptyString => Some EmptyString
  | String c r =>
      if Ascii.eqb c newline then
        match r with
        | EmptyString => Some (String newline EmptyString)
        | String _ _ => None
        end
      else dollar_tail r
  end.

(** [re.sub] of that pattern by the literal [repl], scanning left to right. *)
Fixpoint re_sub_ext (repl s : string) : string :=
  match s with
  | EmptyString => EmptyString
  | String c r =>
      if Ascii.eqb c dot then
        match dollar_tail r with
        | Some tail => String.append repl tail
        | None => String c (re_sub_ext repl r)
        end
      else String c (re_sub_ext repl r)
  end.

(** [new_file_path] of [save_image]. *)
Definition new_file_path (suffix extension src_file_path : string) : string :=
  re_sub_ext (String.append suffix (String dot extension)) src_file_path.

(** ** main *)

(** The dictionary returned by [docopt] for this usage. *)
Record arguments : Type := {
  FILES : list string;
  arg_help : bool;
  arg_log : string;
  arg_extension : string;
  arg_version : bool;
}.

(** The alternatives of the schema for "--extension". *)
Definition extensions : list string :=
  [ "bmp"; "dib"; "jpeg"; "jpg"; "jpe"; "jp2"; "png"; "webp";
    "pbm"; "pgm"; "ppm"; "pxm"; "pnm"; "pfm"; "sr"; "ras";
    "tiff"; "tif"; "exr"; "hdr"; "pic" ]%string.

Definition string_in (s : string) (l : list string) : bool :=
  existsb (String.eqb s) l.

(** How a run of [main] ends: [exit(e)] after a schema error, a normal
    return, or an exception that nothing catches. *)
Inductive main_outcome : Type :=
| SystemExit
| Completed
| Uncaught (e : exn).

Section Main.
Context `{Cv2}.
(** [os.path.exists] *)
Variable path_exists : string → bool.

(** [schema.validate(arguments)] succeeds. *)
Definition schema_validate (a : arguments) : bool :=
  forallb path_exists (FILES a)
  && string_in (arg_log a) ["DEBUG"; "NOTSET"]%string
  && string_in (arg_extension a) extensions.

(** [for file_path in arguments["FILES"]: convert_object(file_path)] *)
Fixpoint convert_files (files : list string) : outcome unit :=
  match files with
  | [] => mret tt
  | file_path :: files' =>
      _ ← convert_object file_path None "-scanned";
      convert_files files'
  end.

(** [main] with the logger left at NOTSET; at DEBUG the display calls that
    the model of [convert_object] leaves out come into play. *)
Definition main (a : arguments) : main_outcome :=
  if negb (schema_validate a) then SystemExit
  else
    match convert_files (FILES a) with
    | Returned _ => Completed
    | Raised e => Uncaught e
    end.

End Main.

(** ** A collaborator that finds a document

    Every image shows two nested quadrilaterals of bounding width 200 and a
    small one of width 50; reading "broken.png" fails; [re.sub] is the model
    above. *)
Definition document_cv2 : Cv2 := {|
  image := Z * Z;
  matrix := rect * rect;
  contour := polygon * Z;
  size_wh := fun img => img;
  imread := fun p => if String.eqb p "broken.png" then Raised CvError
                     else Returned (640, 480);
  cvtColor := fun img _ => Returned img;
  bilateralFilter := fun img _ _ _ => Returned img;
  medianBlur := fun img _ => Returned img;
  Canny := fun img _ _ => Returned img;
  findContours := fun _ =>
    Returned [([(9, 9); (209, 12); (207, 150); (8, 148)], 200);
              ([(10, 10); (210, 10); (210, 150); (10, 150)], 200);
              ([(300, 20); (350, 20); (320, 90)], 50);
              ([(300, 20); (350, 20); (350, 90); (300, 90)], 50)];
  sorted_by_contourArea := fun cnts => Returned cnts;
  approxPolyDP := fun cnt => Returned cnt.1;
  boundingRect := fun cnt => Returned (0, 0, cnt.2, 0);
  getPerspectiveTransform := fun src dst => Returned (src, dst);
  warpPerspective := fun _ _ dsize => Returned dsize;
  clahe_apply := fun img => Returned img;
  resize := fun _ sz => Returned sz;
  imwrite := fun _ _ => Returned tt;
  re_sub_extension := new_file_path;
|}.

(** ** The edge lengths in binary32

    Lines 72 to 81 of the source work on [np.float32] scalars taken from
    [rect].  An integer is a binary32 number when its magnitude is below
    [2^128] and fits a 24-bit significand.  Conversion of a coordinate,
    subtraction, squaring and addition are followed as long as their
    result is such a number, which is then the float32 result; [None]
    marks a result that would be rounded, which this development does not
    follow.  The square root is the correctly rounded one of IEEE 754,
    followed for arguments below [2^48]. *)

Definition f32_representable (x : Z) : bool :=
  let s := Z.log2 (Z.abs x) - 23 in
  (Z.abs x <? 2 ^ 128) && ((s <=? 0) || (Z.abs x mod 2 ^ s =? 0)).

Definition f32_exact (x : Z) : option Z :=
  if f32_representable x then Some x else None.

(** [((p[0] - q[0]) ** 2) + ((p[1] - q[1]) ** 2)] on the rows of [rect]. *)
Definition f32_edge_sq (p q : point) : option Z :=
  p0 ← f32_exact p.1;
  q0 ← f32_exact q.1;
  d0 ← f32_exact (p0 - q0);
  s0 ← f32_exact (d0 ^ 2);
  p1 ← f32_exact p.2;
  q1 ← f32_exact q.2;
  d1 ← f32_exact (p1 - q1);
  s1 ← f32_exact (d1 ^ 2);
  f32_exact (s0 + s1).

(** [int(np.sqrt(n))] for a binary32 number [n]: with [2^j] the power of
    two at or below the root and [k = 23 - j], the root scaled by [2^k] is
    rounded to the nearest integer [m] (no tie can occur), the float32
    result is [m / 2^k], and [int] drops its fraction. *)
Definition f32_int_sqrt (n : Z) : option Z :=
  if (n <? 0) || (2 ^ 48 <=? n) then None
  else if n =? 0 then Some 0
  else
    let k := 23 - Z.log2 (Z.sqrt n) in
    let M := n * 4 ^ k in
    let m0 := Z.sqrt M in
    let m := if M <=? m0 * m0 + m0 then m0 else m0 + 1 in
    Some (m / 2 ^ k).

Definition f32_edge_len (p q : point) : option Z :=
  n ← f32_edge_sq p q; f32_int_sqrt n.

Definition maxWidth_f32 (r : rect) : option Z :=
  let '(Rect tl tr br bl) := r in
  widthA ← f32_edge_len br bl;
  widthB ← f32_edge_len tr tl;
  Some (Z.max widthA widthB).

Definition maxHeight_f32 (r : rect) : option Z :=
  let '(Rect tl tr br bl) := r in
  heightA ← f32_edge_len tr br;
  heightB ← f32_edge_len tl bl;
  Some (Z.max heightA heightB).

(** * Properties *)

Example order_points_square :
  order_points [(110, 60); (10, 10); (10, 60); (110, 10)]
  = Returned (Rect (10, 10) (110, 10) (110, 60) (10, 60)).
Proof. reflexivity. Qed.

(** ** argmin and argmax return the first extremal index *)

Lemma argmin_loop_spec (l pre : list Z) (best : Z) (best_i : nat) :
  pre !! best_i = Some best →
  (∀ (j : nat) (y : Z), pre !! j = Some y → best ≤ y ∧ ((j < best_i)%nat → best < y)) →
  ∃ x, (pre ++ l) !! argmin_loop l (length pre) best best_i = Some x ∧
    ∀ (j : nat) (y : Z), (pre ++ l) !! j = Some y →
      x ≤ y ∧ ((j < argmin_loop l (length pre) best best_i)%nat → x < y).
Proof.
  revert pre best best_i.
  induction l as [|x l IH]; intros pre best best_i Hbest Hpre; simpl.
  - exists best. rewrite app_nil_r. auto.
  - assert (Hlen : (best_i < length pre)%nat) by (eapply lookup_lt_Some; eauto).
    replace (S (length pre)) with (length (pre ++ [x])) by (rewrite length_app; simpl; lia).
    replace (pre ++ x :: l) with ((pre ++ [x]) ++ l) by (rewrite <- app_assoc; reflexivity).
    destruct (Z.ltb_spec x best) as [Hlt|Hge].
    + apply IH.
      * rewrite lookup_app_r by lia. rewrite Nat.sub_diag. reflexivity.
      * intros j y Hj.
        destruct (decide (j < length pre)%nat) as [Hjl|Hjl].
        -- rewrite lookup_app_l in Hj by lia.
           destruct (Hpre j y Hj) as [Hle _]. lia.
        -- rewrite lookup_app_r in Hj by lia.
           destruct (j - length pre)%nat as [|k] eqn:Hk; simpl in Hj; [|done].
           injection Hj as <-. split; [lia|]. intros; lia.
    + apply IH.
      * rewrite lookup_app_l by lia. exact Hbest.
      * intros j y Hj.
        destruct (decide (j < length pre)%nat) as [Hjl|Hjl].
        -- rewrite lookup_app_l in Hj by lia. auto.
        -- rewrite lookup_app_r in Hj by lia.
           destruct (j - length pre)%nat as [|k] eqn:Hk; simpl in Hj; [|done].
           injection Hj as <-. split; [lia|]. intros; lia.
Qed.

Lemma argmin_spec (l : list Z) :
  l ≠ [] →
  ∃ (i : nat) (x : Z), argmin l = Returned i ∧ l !! i = Some x ∧
    ∀ (j : nat) (y : Z), l !! j = Some y → x ≤ y ∧ ((j < i)%nat → x < y).
Proof.
  destruct l as [|x l]; [done|]. intros _.
  destruct (argmin_loop_spec l [x] x 0) as (m & Hm & Hall).
  - reflexivity.
  - intros [|j] y Hj; simpl in Hj; [|done]. injection Hj as <-. split; [lia|]. intros; lia.
  - exists (argmin_loop l 1 x 0), m. simpl in *. auto.
Qed.

Lemma argmax_loop_opp (l : list Z) (i : nat) (best : Z) (best_i : nat) :
  argmax_loop l i best best_i = argmin_loop (Z.opp <$> l) i (- best) best_i.
Proof.
  revert i best best_i. induction l as [|x l IH]; intros i best best_i; simpl; [done|].
  destruct (Z.ltb_spec best x), (Z.ltb_spec (- x) (- best)); try lia; apply IH.
Qed.

Lemma argmax_spec (l : list Z) :
  l ≠ [] →
  ∃ (i : nat) (x : Z), argmax l = Returned i ∧ l !! i = Some x ∧
    ∀ (j : nat) (y : Z), l !! j = Some y → y ≤ x ∧ ((j < i)%nat → y < x).
Proof.
  intros Hne.
  destruct (argmin_spec (Z.opp <$> l)) as (i & x & Hi & Hx & Hall).
  - destruct l; done.
  - rewrite list_lookup_fmap in Hx.
    destruct (l !! i) as [v|] eqn:Hv; simpl in Hx; [|done]. injection Hx as <-.
    exists i, v. split; [|split; [done|]].
    + destruct l as [|a l]; [done|]. simpl in *. rewrite argmax_loop_opp. exact Hi.
    + intros j y Hj. specialize (Hall j (- y)).
      rewrite list_lookup_fmap, Hj in Hall. specialize (Hall eq_refl). lia.
Qed.

Lemma argmin_row (f : point → Z) (pts : list point) :
  pts ≠ [] →
  ∃ (i : nat) (p : point), argmin (f <$> pts) = Returned i ∧ pts !! i = Some p ∧
    ∀ (j : nat) (q : point), pts !! j = Some q → f p ≤ f q ∧ ((j < i)%nat → f p < f q).
Proof.
  intros Hne.
  destruct (argmin_spec (f <$> pts)) as (i & x & Hi & Hx & Hall).
  - destruct pts; done.
  - rewrite list_lookup_fmap in Hx.
    destruct (pts !! i) as [p|] eqn:Hp; simpl in Hx; [|done]. injection Hx as <-.
    exists i, p. split; [done|]. split; [done|].
    intros j q Hj. apply (Hall j (f q)). rewrite list_lookup_fmap, Hj. reflexivity.
Qed.

Lemma argmax_row (f : point → Z) (pts : list point) :
  pts ≠ [] →
  ∃ (i : nat) (p : point), argmax (f <$> pts) = Returned i ∧ pts !! i = Some p ∧
    ∀ (j : nat) (q : point), pts !! j = Some q → f q ≤ f p ∧ ((j < i)%nat → f q < f p).
Proof.
  intros Hne.
  destruct (argmax_spec (f <$> pts)) as (i & x & Hi & Hx & Hall).
  - destruct pts; done.
  - rewrite list_lookup_fmap in Hx.
    destruct (pts !! i) as [p|] eqn:Hp; simpl in Hx; [|done]. injection Hx as <-.
    exists i, p. split; [done|]. split; [done|].
    intros j q Hj. apply (Hall j (f q)). rewrite list_lookup_fmap, Hj. reflexivity.
Qed.

(** On a non-empty array of points [order_points] returns, and each row of
    the result is the first extremal point of its key. *)
Lemma order_points_spec (pts : list point) :
  pts ≠ [] →
  ∃ r : rect, order_points pts = Returned r ∧
    first_min_at psum pts (rect0 r) ∧ first_min_at pdiff pts (rect1 r) ∧
    first_max_at psum pts (rect2 r) ∧ first_max_at pdiff pts (rect3 r).
Proof.
  intros Hne.
  destruct (argmin_row psum pts Hne) as (i0 & p0 & E0 & L0 & H0).
  destruct (argmax_row psum pts Hne) as (i2 & p2 & E2 & L2 & H2).
  destruct (argmin_row pdiff pts Hne) as (i1 & p1 & E1 & L1 & H1).
  destruct (argmax_row pdiff pts Hne) as (i3 & p3 & E3 & L3 & H3).
  exists (Rect p0 p1 p2 p3). split.
  - unfold order_points, getitem. cbv zeta.
    rewrite E0. simpl. rewrite L0. simpl.
    rewrite E2. simpl. rewrite L2. simpl.
    rewrite E1. simpl. rewrite L1. simpl.
    rewrite E3. simpl. rewrite L3. reflexivity.
  - simpl. repeat split; eexists; eauto.
Qed.

(** C2: on any four points, in any order, [order_points] returns a rectangle
    whose row 0 is the input point of minimum x+y, row 2 the point of maximum
    x+y, row 1 the point of minimum y-x and row 3 the point of maximum y-x,
    each time the earliest such point of the input when several tie. *)
Theorem order_points_extremal (pts : list point) :
  length pts = 4%nat →
  ∃ r : rect, order_points pts = Returned r ∧
    first_min_at psum pts (rect0 r) ∧ first_max_at psum pts (rect2 r) ∧
    first_min_at pdiff pts (rect1 r) ∧ first_max_at pdiff pts (rect3 r).
Proof.
  intros Hlen.
  destruct (order_points_spec pts) as (r & Hr & Ha & Hb & Hc & Hd).
  - intros ->. discriminate.
  - exists r. auto.
Qed.

Lemma order_points_extremal_witness :
  ∃ r : rect, order_points [(3, 1); (0, 0); (1, 3); (0, 0)] = Returned r ∧
    first_min_at psum [(3, 1); (0, 0); (1, 3); (0, 0)] (rect0 r) ∧
    first_max_at psum [(3, 1); (0, 0); (1, 3); (0, 0)] (rect2 r) ∧
    first_min_at pdiff [(3, 1); (0, 0); (1, 3); (0, 0)] (rect1 r) ∧
    first_max_at pdiff [(3, 1); (0, 0); (1, 3); (0, 0)] (rect3 r).
Proof. apply (order_points_extremal [(3, 1); (0, 0); (1, 3); (0, 0)]). reflexivity. Defined.

(** ** findLargestCountours *)

Lemma foldl_max_spec (r : list Z) (x : Z) :
  let m := foldl (fun m y => if m <? y then y else m) x r in
  m ∈ x :: r ∧ ∀ y, y ∈ x :: r → y ≤ m.
Proof.
  revert x. induction r as [|a r IH]; intros x; simpl.
  - split; [apply list_elem_of_here|]. intros y Hy. apply list_elem_of_singleton in Hy. lia.
  - destruct (IH (if x <? a then a else x)) as [Hin Hub]. split.
    + apply elem_of_cons in Hin as [->|Hin].
      * destruct (x <? a); [apply list_elem_of_further|]; apply list_elem_of_here.
      * by do 2 apply list_elem_of_further.
    + assert (Hxa : x ≤ (if x <? a then a else x) ∧ a ≤ (if x <? a then a else x))
        by (destruct (Z.ltb_spec x a); lia).
      assert (Hm := Hub _ (list_elem_of_here _ _)).
      intros y Hy. apply elem_of_cons in Hy as [->|Hy]; [lia|].
      apply elem_of_cons in Hy as [->|Hy]; [lia|].
      apply Hub. by apply list_elem_of_further.
Qed.

Lemma py_max_spec (l : list Z) :
  l ≠ [] → ∃ m, py_max l = Returned m ∧ m ∈ l ∧ ∀ y, y ∈ l → y ≤ m.
Proof.
  destruct l as [|x r]; [done|]. intros _.
  eexists. split; [reflexivity|]. apply foldl_max_spec.
Qed.

Lemma index_loop_spec (x : Z) (l : list Z) (k : nat) :
  x ∈ l →
  ∃ i : nat, index_loop x l k = Returned (k + i)%nat ∧ l !! i = Some x ∧
    ∀ j : nat, (j < i)%nat → l !! j ≠ Some x.
Proof.
  revert k. induction l as [|y l IH]; intros k Hin; [by apply elem_of_nil in Hin|].
  simpl. destruct (Z.eqb_spec y x) as [->|Hne].
  - exists 0%nat. rewrite Nat.add_0_r. split; [done|]. split; [done|]. intros; lia.
  - apply elem_of_cons in Hin as [->|Hin]; [done|].
    destruct (IH (S k) Hin) as (i & Hi & Hx & Hfirst).
    exists (S i). replace (k + S i)%nat with (S k + i)%nat by lia.
    split; [done|]. split; [done|].
    intros [|j] Hj; simpl; [congruence|]. apply Hfirst. lia.
Qed.

(** [ws.index(max(ws))] is the position of the first largest width. *)
Lemma index_of_max_spec (ws : list Z) :
  ws ≠ [] →
  ∃ (i : nat) (m : Z), index_of_max ws = Returned i ∧ ws !! i = Some m ∧
    ∀ (j : nat) (y : Z), ws !! j = Some y → y ≤ m ∧ ((j < i)%nat → y < m).
Proof.
  intros Hne. destruct (py_max_spec ws Hne) as (m & Hm & Hin & Hub).
  destruct (index_loop_spec m ws 0 Hin) as (i & Hi & Hx & Hfirst).
  exists i, m. unfold index_of_max. rewrite Hm. simpl. split; [exact Hi|]. split; [done|].
  intros j y Hj. assert (y ≤ m) by (apply Hub; eapply list_elem_of_lookup_2; eauto).
  split; [done|]. intros Hlt. specialize (Hfirst j Hlt).
  assert (y ≠ m) by congruence. lia.
Qed.

Lemma index_of_max_empty : index_of_max [] = Raised ValueError.
Proof. reflexivity. Qed.

Section FindLargestFacts.
Context {C : Type}.
Implicit Types (cl : list C) (ws : list Z).

(** One extraction: read both lists at the first largest width, then pop it. *)
Lemma findLargestCountours_run cl ws (i j : nat) (c1 c2 : C) (w1 w2 : Z) :
  index_of_max ws = Returned i →
  cl !! i = Some c1 → ws !! i = Some w1 →
  index_of_max (delete i ws) = Returned j →
  delete i cl !! j = Some c2 → delete i ws !! j = Some w2 →
  findLargestCountours (Store cl ws)
  = (Returned ([c1; c2], [w1; w2]), Store (delete j (delete i cl)) (delete j (delete i ws))).
Proof.
  intros Hi Hc1 Hw1 Hj Hc2 Hw2.
  unfold findLargestCountours, mbind, St_bind, widths_index_of_max,
    cntList_getitem, cntWidths_getitem, cntList_pop, cntWidths_pop, getitem.
  do 6 (cbn [cntList cntWidths]; rewrite ?Hi, ?Hc1, ?Hw1, ?Hj, ?Hc2, ?Hw2).
  reflexivity.
Qed.

(** With at least two candidates the selection returns: it yields the first
    largest width, then the first largest of what is left, and the store is
    left without these two entries. *)
Lemma findLargestCountours_returns cl ws :
  length cl = length ws → (2 ≤ length ws)%nat →
  ∃ (i j : nat) (c1 c2 : C) (w1 w2 : Z),
    cl !! i = Some c1 ∧ ws !! i = Some w1 ∧
    delete i cl !! j = Some c2 ∧ delete i ws !! j = Some w2 ∧
    (∀ (k : nat) (y : Z), ws !! k = Some y → y ≤ w1 ∧ ((k < i)%nat → y < w1)) ∧
    (∀ (k : nat) (y : Z), delete i ws !! k = Some y → y ≤ w2 ∧ ((k < j)%nat → y < w2)) ∧
    findLargestCountours (Store cl ws)
    = (Returned ([c1; c2], [w1; w2]),
       Store (delete j (delete i cl)) (delete j (delete i ws))).
Proof.
  intros Hlen H2.
  destruct (index_of_max_spec ws) as (i & w1 & Hi & Hw1 & Hmax1).
  { intros ->. simpl in H2. lia. }
  assert (Hil : (i < length ws)%nat) by (eapply lookup_lt_Some; eauto).
  destruct (lookup_lt_is_Some_2 cl i) as [c1 Hc1]; [lia|].
  destruct (index_of_max_spec (delete i ws)) as (j & w2 & Hj & Hw2 & Hmax2).
  { intros Hnil. apply (f_equal length) in Hnil. rewrite length_delete in Hnil by eauto.
    simpl in Hnil. lia. }
  assert (Hjl : (j < length (delete i ws))%nat) by (eapply lookup_lt_Some; eauto).
  destruct (lookup_lt_is_Some_2 (delete i cl) j) as [c2 Hc2].
  { rewrite length_delete by eauto. rewrite length_delete in Hjl by eauto. lia. }
  exists i, j, c1, c2, w1, w2. repeat (split; [done|]).
  by apply findLargestCountours_run.
Qed.

End FindLargestFacts.

Section FewCandidates.
Context {C : Type}.

(** With no candidate, or a single one, [max] is applied to an empty list
    (at once, or after the first pop) and [ValueError] escapes. *)
Lemma findLargestCountours_few (cl : list C) (ws : list Z) :
  length cl = length ws → (length ws < 2)%nat →
  (findLargestCountours (Store cl ws)).1 = Raised ValueError.
Proof.
  intros Hlen Hlt.
  destruct ws as [|w [|w' ws]]; simpl in Hlt; [| |lia].
  - reflexivity.
  - destruct cl as [|c [|c' cl]]; simpl in Hlen; try discriminate.
    unfold findLargestCountours, mbind, St_bind, widths_index_of_max,
      cntList_getitem, cntWidths_getitem, cntList_pop, cntWidths_pop, getitem,
      index_of_max, py_index.
    simpl. rewrite Z.eqb_refl. reflexivity.
Qed.

End FewCandidates.

(** ** The guards of convert_object *)

Section ScanFacts.
Context `{Cv2}.
Implicit Types (img : image) (cl : list polygon) (ws : list Z)
  (file_path new_file_suffix : string) (screen_size : option (Z * Z)).

(** After a successful selection the first guard is dead and the second
    compares the two selected widths. *)
Lemma scan_screens_selected img cl ws file_path screen_size new_file_suffix
    (c1 c2 : polygon) (w1 w2 : Z) (s' : store polygon) :
  findLargestCountours (Store cl ws) = (Returned ([c1; c2], [w1; w2]), s') →
  scan_screens img cl ws file_path screen_size new_file_suffix
  = if w1 =? w2
    then rectify_first img [c1; c2] file_path screen_size new_file_suffix
    else Returned None.
Proof.
  intros Hsel. unfold scan_screens. rewrite Hsel. simpl.
  destruct (w1 =? w2); reflexivity.
Qed.

Lemma scan_screens_raises img cl ws file_path screen_size new_file_suffix (e : exn) :
  (findLargestCountours (Store cl ws)).1 = Raised e →
  scan_screens img cl ws file_path screen_size new_file_suffix = Raised e.
Proof. intros Hsel. unfold scan_screens. rewrite Hsel. reflexivity. Qed.

(** The rectification path has no [return None]. *)
Lemma rectify_pts_not_None img (pts : list point) file_path screen_size new_file_suffix :
  rectify_pts img pts file_path screen_size new_file_suffix ≠ Returned None.
Proof.
  unfold rectify_pts, mbind, outcome_bind, mret, outcome_ret.
  repeat match goal with
         | |- context [match ?x with _ => _ end] => destruct x
         end; discriminate.
Qed.

Lemma rectify_first_not_None img cl file_path screen_size new_file_suffix :
  rectify_first img cl file_path screen_size new_file_suffix ≠ Returned None.
Proof.
  unfold rectify_first.
  destruct (getitem cl 0) as [c0|]; simpl; [|discriminate].
  destruct (reshape_4_2 c0) as [pts|]; simpl; [|discriminate].
  apply rectify_pts_not_None.
Qed.

Lemma rectify_first_valid img (c1 : polygon) cl file_path screen_size new_file_suffix :
  length c1 = 4%nat →
  rectify_first img (c1 :: cl) file_path screen_size new_file_suffix
  = rectify_pts img c1 file_path screen_size new_file_suffix.
Proof. intros Hlen. unfold rectify_first, reshape_4_2. simpl. rewrite Hlen. reflexivity. Qed.

End ScanFacts.

Section ReturningCollaborator.
Context `{Cv2Returns}.

Lemma four_point_transform_returns (img : image) (pts : list point) :
  pts ≠ [] → ∃ warped, four_point_transform img pts = Returned warped.
Proof.
  intros Hne. destruct (order_points_spec pts Hne) as (r & Hr & _).
  unfold four_point_transform. rewrite Hr. simpl.
  destruct (getPerspectiveTransform_returns r (dst_rect (maxWidth r) (maxHeight r)))
    as [M HM]. rewrite HM. simpl.
  destruct (warpPerspective_returns img M (maxWidth r, maxHeight r)) as [out Hout].
  rewrite Hout. simpl. by exists out.
Qed.

Lemma rectify_pts_returns (img : image) (pts : list point)
    (file_path : string) (screen_size : option (Z * Z)) (new_file_suffix : string) :
  pts ≠ [] →
  ∃ out, rectify_pts img pts file_path screen_size new_file_suffix = Returned (Some out).
Proof.
  intros Hne. destruct (order_points_spec pts Hne) as (r & Hr & _).
  destruct (four_point_transform_returns img pts Hne) as [warped Hw].
  unfold rectify_pts, save_image. rewrite Hr, Hw. simpl.
  destruct (cvtColor_returns warped COLOR_BGR2GRAY) as [g Hg]. rewrite Hg. simpl.
  destruct (clahe_apply_returns g) as [g' Hg']. rewrite Hg'. simpl.
  rewrite imwrite_returns. simpl.
  destruct screen_size as [sz|].
  - destruct (resize_returns g' sz) as [rs Hrs]. rewrite Hrs. simpl.
    destruct (cvtColor_returns rs COLOR_GRAY2RGB) as [o Ho]. rewrite Ho. simpl. by exists o.
  - destruct (cvtColor_returns g' COLOR_GRAY2RGB) as [o Ho]. rewrite Ho. simpl. by exists o.
Qed.

End ReturningCollaborator.

(** ** Fewer than two candidates *)

(** C1: with no four-vertex candidate, or exactly one, the scan does not
    return NotFound: [findLargestCountours] raises [ValueError] before the
    guard [len(screenCntList) >= 2] is reached, and the exception escapes. *)
Theorem scan_screens_few_candidates_raises `{Cv2} (img : image)
    (cands : list candidate) (file_path : string)
    (screen_size : option (Z * Z)) (new_file_suffix : string) :
  (length cands < 2)%nat →
  scan_screens img cands.*1 cands.*2 file_path screen_size new_file_suffix
  = Raised ValueError.
Proof.
  intros Hlt. apply scan_screens_raises, findLargestCountours_few.
  - by rewrite !length_fmap.
  - by rewrite length_fmap.
Qed.

Lemma scan_screens_few_candidates_raises_witness :
  @scan_screens size_only_cv2 (640, 480)
    [[(0, 0); (4, 0); (4, 3); (0, 3)]] [5] "a.png" None "-scanned"
  = Raised ValueError.
Proof.
  apply (@scan_screens_few_candidates_raises size_only_cv2 (640, 480)
           [([(0, 0); (4, 0); (4, 3); (0, 3)], 5)] "a.png" None "-scanned").
  simpl. lia.
Defined.

(** The candidate loop keeps the two lists in step, and every polygon it
    keeps has four vertices: its result is a list of candidates. *)
Lemma collect_screens_candidates `{Cv2} (cnts : list contour)
    (cands : list candidate) (cl : list polygon) (ws : list Z) :
  Forall (fun c : candidate => length c.1 = 4%nat) cands →
  collect_screens cnts cands.*1 cands.*2 = Returned (cl, ws) →
  ∃ cands' : list candidate,
    cl = cands'.*1 ∧ ws = cands'.*2 ∧
    Forall (fun c : candidate => length c.1 = 4%nat) cands'.
Proof.
  revert cands. induction cnts as [|cnt cnts IH]; intros cands Hvalid Hrun; simpl in Hrun.
  - injection Hrun as <- <-. by exists cands.
  - destruct (approxPolyDP cnt) as [approx|]; simpl in Hrun; [|done].
    destruct (Nat.eqb_spec (length approx) 4) as [Hfour|_].
    + destruct (boundingRect cnt) as [[[[X Y] W] Hgt]|]; simpl in Hrun; [|done].
      apply (IH (cands ++ [(approx, W)])).
      * apply Forall_app. split; [done|]. by apply Forall_singleton.
      * by rewrite !fmap_app.
    + by apply (IH cands).
Qed.

(** The same failure seen from [convert_object]: when the raster front end
    returns and the loop keeps fewer than two polygons, [ValueError] escapes. *)
Lemma convert_object_few_candidates_raises `{Cv2} (file_path : string)
    (screen_size : option (Z * Z)) (new_file_suffix : string)
    (img g1 g2 g3 edged : image) (countours cnts : list contour)
    (cl : list polygon) (ws : list Z) :
  imread file_path = Returned img →
  cvtColor img COLOR_BGR2GRAY = Returned g1 →
  bilateralFilter g1 11 17 17 = Returned g2 →
  medianBlur g2 5 = Returned g3 →
  Canny g3 30 400 = Returned edged →
  findContours edged = Returned countours →
  sorted_by_contourArea countours = Returned cnts →
  collect_screens cnts [] [] = Returned (cl, ws) →
  (length cl < 2)%nat →
  convert_object file_path screen_size new_file_suffix = Raised ValueError.
Proof.
  intros E1 E2 E3 E4 E5 E6 E7 Hloop Hlt.
  destruct (collect_screens_candidates cnts [] cl ws) as (cands & -> & -> & _);
    [constructor|exact Hloop|].
  unfold convert_object.
  rewrite E1; simpl. rewrite E2; simpl. rewrite E3; simpl. rewrite E4; simpl.
  rewrite E5; simpl. rewrite E6; simpl. rewrite E7; simpl. rewrite Hloop; simpl.
  apply scan_screens_raises, findLargestCountours_few.
  - by rewrite !length_fmap.
  - rewrite length_fmap in Hlt. by rewrite length_fmap.
Qed.

(** ** The width-agreement guard *)

Lemma top_of_Permutation (l : list Z) (a : Z) (rest : list Z) (m : Z) :
  l ≡ₚ a :: rest → (∀ x, x ∈ rest → x ≤ a) →
  m ∈ l → (∀ y, y ∈ l → y ≤ m) → m = a.
Proof.
  intros Hp Hrest Hm Hub.
  assert (a ≤ m) by (apply Hub; rewrite Hp; apply list_elem_of_here).
  rewrite Hp in Hm. apply elem_of_cons in Hm as [->|Hm]; [done|].
  specialize (Hrest m Hm). lia.
Qed.

(** The two widths extracted by [findLargestCountours] are the two largest
    of the list, whichever way these are named. *)
Lemma findLargestCountours_two_largest {C : Type} (cl : list C) (ws : list Z)
    (w1 w2 : Z) (rest : list Z) :
  length cl = length ws →
  ws ≡ₚ w1 :: w2 :: rest → w2 ≤ w1 → (∀ x, x ∈ rest → x ≤ w2) →
  ∃ (i : nat) (c1 c2 : C) (s' : store C),
    cl !! i = Some c1 ∧ ws !! i = Some w1 ∧
    (∀ (k : nat) (y : Z), ws !! k = Some y → (k < i)%nat → y < w1) ∧
    findLargestCountours (Store cl ws) = (Returned ([c1; c2], [w1; w2]), s').
Proof.
  intros Hlen Hp H21 Hrest.
  destruct (findLargestCountours_returns cl ws Hlen)
    as (i & j & c1 & c2 & v1 & v2 & Hc1 & Hv1 & Hc2 & Hv2 & Hmax1 & Hmax2 & Hrun).
  { apply Permutation_length in Hp. simpl in Hp. lia. }
  assert (v1 = w1) as ->.
  { apply (top_of_Permutation ws w1 (w2 :: rest)); [done| | |].
    - intros x Hx. apply elem_of_cons in Hx as [->|Hx]; [lia|].
      specialize (Hrest x Hx). lia.
    - eapply list_elem_of_lookup_2; eauto.
    - intros y Hy. apply list_elem_of_lookup_1 in Hy as [k Hk]. by apply (Hmax1 k). }
  assert (Hp' : delete i ws ≡ₚ w2 :: rest).
  { apply (Permutation_cons_inv (a := w1)).
    rewrite <- Hp. symmetry. by apply delete_Permutation. }
  assert (v2 = w2) as ->.
  { apply (top_of_Permutation (delete i ws) w2 rest); [done|done| |].
    - eapply list_elem_of_lookup_2; eauto.
    - intros y Hy. apply list_elem_of_lookup_1 in Hy as [k Hk]. by apply (Hmax2 k). }
  exists i, c1, c2, (Store (delete j (delete i cl)) (delete j (delete i ws))).
  repeat (split; [done|]). split; [|done].
  intros k y Hk Hlt. by apply (Hmax1 k).
Qed.

(** C3: with at least two candidates, whose two largest widths are [w1] and
    [w2], the scan returns NotFound exactly when [w1] and [w2] differ; when
    they are equal it goes on to rectify the first candidate of width [w1],
    and with a collaborator that returns this yields a rectified frame
    exactly in that case. *)
Theorem scan_screens_width_agreement `{Cv2} (img : image)
    (cands : list candidate) (file_path : string)
    (screen_size : option (Z * Z)) (new_file_suffix : string)
    (w1 w2 : Z) (rest : list Z) :
  cands.*2 ≡ₚ w1 :: w2 :: rest → w2 ≤ w1 → (∀ x, x ∈ rest → x ≤ w2) →
  (scan_screens img cands.*1 cands.*2 file_path screen_size new_file_suffix
     = Returned None ↔ w1 ≠ w2) ∧
  (w1 = w2 → ∃ (i : nat) (c1 c2 : polygon),
     cands !! i = Some (c1, w1) ∧
     (∀ (k : nat) (c : candidate), cands !! k = Some c → (k < i)%nat → c.2 < w1) ∧
     scan_screens img cands.*1 cands.*2 file_path screen_size new_file_suffix
     = rectify_first img [c1; c2] file_path screen_size new_file_suffix) ∧
  (Cv2Returns → Forall (fun c : candidate => length c.1 = 4%nat) cands →
     (∃ out, scan_screens img cands.*1 cands.*2 file_path screen_size new_file_suffix
             = Returned (Some out)) ↔ w1 = w2).
Proof.
  intros Hp H21 Hrest.
  destruct (findLargestCountours_two_largest cands.*1 cands.*2 w1 w2 rest)
    as (i & c1 & c2 & s' & Hc1 & Hw1 & Hfirst & Hrun); [by rewrite !length_fmap|done..|].
  rewrite (scan_screens_selected _ _ _ _ _ _ _ _ _ _ _ Hrun).
  assert (Hcand : cands !! i = Some (c1, w1)).
  { rewrite list_lookup_fmap in Hc1. rewrite list_lookup_fmap in Hw1.
    destruct (cands !! i) as [[c w]|]; by simplify_eq/=. }
  destruct (Z.eqb_spec w1 w2) as [Heq|Hne].
  - split; [|split].
    + split; [|done]. intros Hnone. by apply rectify_first_not_None in Hnone.
    + intros _. exists i, c1, c2. split; [done|]. split; [|done].
      intros k c Hk Hlt. apply (Hfirst k); [|done].
      by rewrite list_lookup_fmap, Hk.
    + intros Hret Hvalid. split; [done|]. intros _.
      rewrite rectify_first_valid.
      * apply rectify_pts_returns. intros ->.
        eapply Forall_lookup_1 in Hvalid; [|exact Hcand]. discriminate.
      * eapply Forall_lookup_1 in Hvalid; [|exact Hcand]. exact Hvalid.
  - split; [|split].
    + done.
    + done.
    + intros _ _. split; [|done]. intros [out Hout]. discriminate.
Qed.

Lemma scan_screens_width_agreement_witness :
  (@scan_screens size_only_cv2 (640, 480)
     [[(9, 9); (209, 12); (207, 150); (8, 148)];
      [(10, 10); (210, 10); (210, 150); (10, 150)];
      [(300, 20); (350, 20); (350, 90); (300, 90)]]
     [200; 200; 50] "a.png" None "-scanned" = Returned None ↔ 200 ≠ 200) ∧
  (∃ out, @scan_screens size_only_cv2 (640, 480)
     [[(9, 9); (209, 12); (207, 150); (8, 148)];
      [(10, 10); (210, 10); (210, 150); (10, 150)];
      [(300, 20); (350, 20); (350, 90); (300, 90)]]
     [200; 200; 50] "a.png" None "-scanned" = Returned (Some out)).
Proof.
  destruct (@scan_screens_width_agreement size_only_cv2 (640, 480)
              [([(9, 9); (209, 12); (207, 150); (8, 148)], 200);
               ([(10, 10); (210, 10); (210, 150); (10, 150)], 200);
               ([(300, 20); (350, 20); (350, 90); (300, 90)], 50)]
              "a.png" None "-scanned" 200 200 [50]) as (Hnone & _ & Hsome).
  - reflexivity.
  - lia.
  - intros x Hx. apply list_elem_of_singleton in Hx. lia.
  - split; [exact Hnone|].
    apply Hsome; [apply size_only_returns| |reflexivity].
    repeat constructor.
Defined.

(** ** The scenario with widths 50, 200, 200, 80 *)

(** Rectification spelled out in the calls it makes: the points are ordered,
    the transform is asked from the ordered corners to the destination
    corners of their two dimensions, the warp is asked for that size, and
    the post-processing follows. *)
Lemma rectify_pts_calls `{Cv2} (img : image) (pts : list point) (r : rect)
    (file_path : string) (screen_size : option (Z * Z)) (new_file_suffix : string) :
  order_points pts = Returned r →
  rectify_pts img pts file_path screen_size new_file_suffix
  = (M ← getPerspectiveTransform r (dst_rect (maxWidth r) (maxHeight r));
     warped ← warpPerspective img M (maxWidth r, maxHeight r);
     warp ← cvtColor warped COLOR_BGR2GRAY;
     warp ← clahe_apply warp;
     _ ← save_image file_path warp new_file_suffix "jpg";
     match screen_size with
     | Some sz =>
         resized ← resize warp sz;
         out ← cvtColor resized COLOR_GRAY2RGB;
         mret (Some out)
     | None =>
         out ← cvtColor warp COLOR_GRAY2RGB;
         mret (Some out)
     end).
Proof.
  intros Hr. unfold rectify_pts, four_point_transform. rewrite Hr. simpl.
  destruct (getPerspectiveTransform _ _) as [M|]; simpl; [|done].
  by destruct (warpPerspective _ _ _).
Qed.



(** ** The input lists of findLargestCountours *)

(** C8, as stated, fails: after the call on three candidates the two input
    lists have lost the two extracted entries. *)
Lemma findLargestCountours_mutates_inputs :
  findLargestCountours (Store ["a"; "b"; "c"]%string [1; 3; 2])
    = (Returned (["b"; "c"]%string, [3; 2]), Store ["a"%string] [1]) ∧
  (findLargestCountours (Store ["a"; "b"; "c"]%string [1; 3; 2])).2
    ≠ Store ["a"; "b"; "c"]%string [1; 3; 2].
Proof. split; [reflexivity|]. simpl. intros [=]. Qed.

(** C8 (amended): [findLargestCountours] pops what it selects from both of
    its input lists.  With at least two candidates it returns the two
    selected entries, and the input lists are left holding the remaining
    entries in their original order, two shorter than before; together with the
    returned entries they make up the original lists. *)
Theorem findLargestCountours_pops_inputs {C : Type} (cl : list C) (ws : list Z) :
  length cl = length ws → (2 ≤ length ws)%nat →
  ∃ (i j : nat) (c1 c2 : C) (w1 w2 : Z),
    findLargestCountours (Store cl ws)
    = (Returned ([c1; c2], [w1; w2]),
       Store (delete j (delete i cl)) (delete j (delete i ws))) ∧
    (length (delete j (delete i cl)) + 2 = length cl)%nat ∧
    (length (delete j (delete i ws)) + 2 = length ws)%nat ∧
    cl ≡ₚ [c1; c2] ++ delete j (delete i cl) ∧
    ws ≡ₚ [w1; w2] ++ delete j (delete i ws).
Proof.
  intros Hlen H2.
  destruct (findLargestCountours_returns cl ws Hlen H2)
    as (i & j & c1 & c2 & w1 & w2 & Hc1 & Hw1 & Hc2 & Hw2 & _ & _ & Hrun).
  exists i, j, c1, c2, w1, w2. split; [done|].
  assert (Hi := lookup_lt_Some _ _ _ Hc1). assert (Hi' := lookup_lt_Some _ _ _ Hw1).
  assert (Hj := lookup_lt_Some _ _ _ Hc2). assert (Hj' := lookup_lt_Some _ _ _ Hw2).
  rewrite length_delete in Hj by eauto. rewrite length_delete in Hj' by eauto.
  repeat split.
  - rewrite !length_delete by eauto. lia.
  - rewrite !length_delete by eauto. lia.
  - simpl. rewrite <- (delete_Permutation (delete i cl) j c2) by done.
    by apply delete_Permutation.
  - simpl. rewrite <- (delete_Permutation (delete i ws) j w2) by done.
    by apply delete_Permutation.
Qed.

Lemma findLargestCountours_pops_inputs_witness :
  ∃ (i j : nat) (c1 c2 : string) (w1 w2 : Z),
    findLargestCountours (Store ["a"; "b"; "c"]%string [1; 3; 2])
    = (Returned ([c1; c2], [w1; w2]),
       Store (delete j (delete i ["a"; "b"; "c"]%string)) (delete j (delete i [1; 3; 2]))) ∧
    (length (delete j (delete i ["a"; "b"; "c"]%string)) + 2
     = length ["a"; "b"; "c"]%string)%nat ∧
    (length (delete j (delete i [1%Z; 3%Z; 2%Z])) + 2 = length [1%Z; 3%Z; 2%Z])%nat ∧
    ["a"; "b"; "c"]%string ≡ₚ [c1; c2] ++ delete j (delete i ["a"; "b"; "c"]%string) ∧
    [1; 3; 2] ≡ₚ [w1; w2] ++ delete j (delete i [1; 3; 2]).
Proof.
  apply (findLargestCountours_pops_inputs ["a"; "b"; "c"]%string [1; 3; 2]).
  - reflexivity.
  - simpl. lia.
Defined.

(** ** Degenerate quadrilaterals *)

(** Whenever [findLargestCountours] returns, it returns exactly two entries
    in each list: the guard [len(screenCntList) >= 2] never fires. *)
Lemma St_bind_returned {S A B : Type} (m : St S A) (f : A → St S B)
    (s s' : S) (b : B) :
  (m ≫= f) s = (Returned b, s') →
  ∃ (a : A) (s1 : S), m s = (Returned a, s1) ∧ f a s1 = (Returned b, s').
Proof.
  unfold mbind, St_bind. destruct (m s) as [[a|e] s1]; [eauto|discriminate].
Qed.

Lemma findLargestCountours_shape {C : Type} (s s' : store C) (l : list C) (w : list Z) :
  findLargestCountours s = (Returned (l, w), s') →
  ∃ (c1 c2 : C) (w1 w2 : Z), l = [c1; c2] ∧ w = [w1; w2].
Proof.
  intros Hrun. unfold findLargestCountours in Hrun. cbv zeta in Hrun.
  repeat (apply St_bind_returned in Hrun as (? & ? & _ & Hrun); cbv beta zeta in Hrun).
  unfold mret, St_ret in Hrun. simpl in Hrun. injection Hrun as <- <- _.
  by repeat eexists.
Qed.

Lemma four_point_transform_dsize `{Cv2} (img : image) (pts : list point) (r : rect) :
  order_points pts = Returned r →
  four_point_transform img pts
  = (M ← getPerspectiveTransform r (dst_rect (maxWidth r) (maxHeight r));
     warpPerspective img M (maxWidth r, maxHeight r)).
Proof.
  intros Hr. unfold four_point_transform. rewrite Hr. simpl.
  destruct (getPerspectiveTransform _ _) as [M|]; simpl; [|done].
  by destruct (warpPerspective _ _ _).
Qed.



(** ** Destination dimensions against the real-valued formula *)

Lemma Int_part_le (x y : R) : (x <= y)%R → Int_part x ≤ Int_part y.
Proof.
  intros Hxy.
  destruct (base_Int_part x) as [Hx1 Hx2], (base_Int_part y) as [Hy1 Hy2].
  destruct (Z_lt_le_dec (Int_part y) (Int_part x)) as [Hlt|]; [|done].
  assert (Hstep : Int_part y + 1 ≤ Int_part x) by lia.
  apply IZR_le in Hstep. rewrite plus_IZR in Hstep. lra.
Qed.

(** Truncating each length and taking the larger is the same as taking the
    floor of the larger length. *)
Lemma Int_part_Rmax (x y : R) :
  Int_part (Rmax x y) = Z.max (Int_part x) (Int_part y).
Proof.
  unfold Rmax. destruct (Rle_dec x y) as [Hle|Hnle].
  - apply Int_part_le in Hle. lia.
  - assert (Hyx : (y <= x)%R) by lra. apply Int_part_le in Hyx. lia.
Qed.

(** The integer square root is the floor of the real square root. *)
Lemma Int_part_sqrt (n : Z) : 0 ≤ n → Int_part (sqrt (IZR n)) = Z.sqrt n.
Proof.
  intros Hn. symmetry. apply Int_part_spec.
  destruct (Z.sqrt_spec n Hn) as [Hlo Hhi].
  assert (Hs : 0 ≤ Z.sqrt n) by apply Z.sqrt_nonneg.
  assert (Hs' : (0 <= IZR (Z.sqrt n))%R) by (apply IZR_le in Hs; exact Hs).
  split.
  - apply IZR_lt in Hhi. rewrite mult_IZR in Hhi.
    assert (Hlt : (sqrt (IZR n) < sqrt (IZR (Z.succ (Z.sqrt n)) * IZR (Z.succ (Z.sqrt n))))%R).
    { apply sqrt_lt_1_alt. split; [by apply IZR_le|exact Hhi]. }
    rewrite sqrt_square in Hlt.
    + rewrite succ_IZR in Hlt. lra.
    + rewrite succ_IZR. lra.
  - apply IZR_le in Hlo. rewrite mult_IZR in Hlo.
    apply sqrt_le_1_alt in Hlo. rewrite sqrt_square in Hlo; done.
Qed.

Lemma edge_sq_nonneg (p q : point) : 0 ≤ edge_sq p q.
Proof. unfold edge_sq. nia. Qed.

(** [int(np.sqrt(...))] of an edge is the floor of its Euclidean length. *)
Lemma int_sqrt_edge (p q : point) : int_sqrt (edge_sq p q) = Int_part (euclid p q).
Proof.
  unfold int_sqrt. rewrite <- Int_part_sqrt by apply edge_sq_nonneg.
  unfold euclid, edge_sq. do 2 f_equal.
  rewrite plus_IZR, !Z.pow_2_r, !mult_IZR. simpl. ring.
Qed.

(** In the integer reading the two dimensions are the floor of the larger
    Euclidean edge length. *)
Lemma dims_exact_formula (r : rect) :
  maxWidth r = spec_destWidth r ∧ maxHeight r = spec_destHeight r.
Proof.
  destruct r as [tl tr br bl]. unfold maxWidth, maxHeight, spec_destWidth, spec_destHeight.
  rewrite !Int_part_Rmax, !int_sqrt_edge. lia.
Qed.

(** *** The binary32 reading *)

Lemma f32_exact_small (x : Z) : Z.abs x < 2 ^ 24 → f32_exact x = Some x.
Proof.
  intros Hx. unfold f32_exact, f32_representable.
  assert (H128 : Z.abs x < 2 ^ 128).
  { eapply Z.lt_le_trans; [exact Hx|]. by apply Z.pow_le_mono_r. }
  assert (Hlog : Z.log2 (Z.abs x) - 23 ≤ 0).
  { destruct (Z.eq_dec (Z.abs x) 0) as [->|Hne]; [simpl; lia|].
    assert (Z.log2 (Z.abs x) < 24) by (apply Z.log2_lt_pow2; lia). lia. }
  apply Z.ltb_lt in H128. apply Z.leb_le in Hlog. by rewrite H128, Hlog.
Qed.

(** Below [2^24] the correctly rounded float32 square root never reaches
    the next integer, so its truncation is the integer square root. *)
Lemma f32_int_sqrt_exact (n : Z) :
  0 ≤ n < 2 ^ 24 → f32_int_sqrt n = Some (int_sqrt n).
Proof.
  intros [H0 Hlt]. unfold f32_int_sqrt, int_sqrt.
  assert (E24 : 2 ^ 24 = 4096 * 4096) by reflexivity.
  assert (H48 : n < 2 ^ 48).
  { eapply Z.lt_le_trans; [exact Hlt|]. by apply Z.pow_le_mono_r. }
  destruct (Z.ltb_spec n 0) as [|_]; [lia|].
  destruct (Z.leb_spec (2 ^ 48) n) as [|_]; [lia|]. simpl.
  destruct (Z.eqb_spec n 0) as [->|Hn]; [reflexivity|].
  set (a := Z.sqrt n).
  destruct (Z.sqrt_spec n H0) as [Hlo Hhi]. fold a in Hlo, Hhi.
  assert (Ha : 0 < a) by (apply Z.sqrt_pos; lia).
  assert (Ha12 : a < 2 ^ 12).
  { change (2 ^ 12) with 4096. nia. }
  assert (Hj : Z.log2 a < 12) by (apply Z.log2_lt_pow2; lia).
  assert (Hj0 : 0 ≤ Z.log2 a) by apply Z.log2_nonneg.
  destruct (Z.log2_spec a Ha) as [_ Hup].
  set (k := 23 - Z.log2 a) in *.
  assert (Hk : 0 ≤ k) by (unfold k; lia).
  set (P := 2 ^ k).
  assert (HP : 0 < P) by (apply Z.pow_pos_nonneg; lia).
  assert (HaP : a + 1 ≤ P).
  { assert (2 ^ Z.succ (Z.log2 a) ≤ 2 ^ k) by (apply Z.pow_le_mono_r; unfold k; lia).
    unfold P. lia. }
  assert (H4 : 4 ^ k = P * P).
  { change 4 with (2 ^ 2). rewrite <- Z.pow_mul_r by lia.
    replace (2 * k) with (k + k) by lia. by rewrite Z.pow_add_r by lia. }
  rewrite H4. set (M := n * (P * P)). set (m0 := Z.sqrt M).
  assert (HM0 : 0 ≤ M) by (unfold M; nia).
  destruct (Z.sqrt_spec M HM0) as [Hmlo Hmhi]. fold m0 in Hmlo, Hmhi.
  assert (Hm0 : 0 ≤ m0) by apply Z.sqrt_nonneg.
  assert (HU : a * P ≤ m0).
  { unfold m0. rewrite <- (Z.sqrt_square (a * P)) by nia.
    apply Z.sqrt_le_mono. unfold M. nia. }
  assert (HMT : M + P * P ≤ (a + 1) * P * ((a + 1) * P)) by (unfold M; nia).
  assert (HT : m0 < (a + 1) * P).
  { unfold m0. apply Z.sqrt_lt_square; [lia|nia|]. nia. }
  f_equal. symmetry.
  destruct (Z.leb_spec M (m0 * m0 + m0)) as [Hdown|Hup'].
  - apply (Z.div_unique m0 P a (m0 - a * P)); [left; lia|lia].
  - assert (Hlt' : m0 + 1 < (a + 1) * P).
    { destruct (Z.eq_dec (m0 + 1) ((a + 1) * P)) as [Heq|]; [|lia].
      exfalso. assert (m0 = (a + 1) * P - 1) by lia. subst m0.
      set (T := (a + 1) * P) in *. assert (P * P < T) by nia.
      unfold T in *. nia. }
    apply (Z.div_unique (m0 + 1) P a (m0 + 1 - a * P)); [left; lia|lia].
Qed.

Lemma edge_sq_in_image (W H : Z) (p q : point) :
  in_image W H p → in_image W H q → edge_sq p q ≤ (W - 1) ^ 2 + (H - 1) ^ 2.
Proof.
  unfold in_image, edge_sq. destruct p as [px py], q as [qx qy]. simpl.
  intros [Hpx Hpy] [Hqx Hqy]. nia.
Qed.

Lemma f32_edge_len_exact (W H : Z) (p q : point) :
  (W - 1) ^ 2 + (H - 1) ^ 2 < 2 ^ 24 →
  in_image W H p → in_image W H q →
  f32_edge_len p q = Some (int_sqrt (edge_sq p q)).
Proof.
  intros HD Hp Hq.
  assert (Hedge := edge_sq_in_image W H p q Hp Hq).
  assert (Hnn := edge_sq_nonneg p q).
  destruct p as [px py], q as [qx qy]. unfold in_image, edge_sq in *. simpl in *.
  destruct Hp as [Hpx Hpy], Hq as [Hqx Hqy].
  assert (E24 : 2 ^ 24 = 4096 * 4096) by reflexivity.
  assert (HW : (W - 1) ^ 2 < 2 ^ 24) by nia.
  assert (HH : (H - 1) ^ 2 < 2 ^ 24) by nia.
  assert (HW' : W - 1 < 2 ^ 24) by nia.
  assert (HH' : H - 1 < 2 ^ 24) by nia.
  unfold f32_edge_len, f32_edge_sq. simpl.
  rewrite (f32_exact_small px) by lia. simpl.
  rewrite (f32_exact_small qx) by lia. simpl.
  rewrite (f32_exact_small (px - qx)) by lia. simpl.
  rewrite (f32_exact_small ((px - qx) ^ 2)) by (rewrite Z.abs_eq; nia). simpl.
  rewrite (f32_exact_small py) by lia. simpl.
  rewrite (f32_exact_small qy) by lia. simpl.
  rewrite (f32_exact_small (py - qy)) by lia. simpl.
  rewrite (f32_exact_small ((py - qy) ^ 2)) by (rewrite Z.abs_eq; nia). simpl.
  rewrite (f32_exact_small ((px - qx) ^ 2 + (py - qy) ^ 2)) by (rewrite Z.abs_eq; lia).
  simpl. apply f32_int_sqrt_exact. lia.
Qed.

(** On the corners of an image whose squared diagonal is below [2^24] the
    binary32 reading and the integer reading give the same dimensions. *)
Lemma dims_f32_exact (W H : Z) (r : rect) :
  (W - 1) ^ 2 + (H - 1) ^ 2 < 2 ^ 24 →
  Forall (in_image W H) (rect_rows r) →
  maxWidth_f32 r = Some (maxWidth r) ∧ maxHeight_f32 r = Some (maxHeight r).
Proof.
  intros HD Hin. destruct r as [tl tr br bl]. unfold rect_rows in Hin. simpl in Hin.
  apply Forall_cons in Hin as [Htl Hin]. apply Forall_cons in Hin as [Htr Hin].
  apply Forall_cons in Hin as [Hbr Hin]. apply Forall_cons in Hin as [Hbl _].
  unfold maxWidth_f32, maxHeight_f32, maxWidth, maxHeight.
  rewrite !(f32_edge_len_exact W H) by done. done.
Qed.

Example dims_f32_small_cases :
  maxWidth_f32 (Rect (10, 10) (110, 10) (110, 60) (10, 60)) = Some 100 ∧
  maxHeight_f32 (Rect (10, 10) (110, 10) (110, 60) (10, 60)) = Some 50 ∧
  maxWidth_f32 (Rect (5, 5) (5, 5) (5, 5) (5, 5)) = Some 0 ∧
  maxHeight_f32 (Rect (5, 5) (5, 5) (5, 5) (5, 5)) = Some 0.
Proof. repeat split; by vm_compute. Qed.

(** C5, as stated, fails: on the ordered corners (0,0), (4019,821),
    (4019,824), (0,3), which fit a 4032 by 3024 photograph, both horizontal
    edges have squared length 16826402, a binary32 number whose square root
    lies above the midpoint below 4102; float32 rounds it to 4102.0 and the
    code's width is 4102, while the floor of the Euclidean length is 4101. *)
Lemma dims_f32_exceed_formula :
  order_points [(0, 0); (4019, 821); (4019, 824); (0, 3)]
    = Returned (Rect (0, 0) (4019, 821) (4019, 824) (0, 3)) ∧
  maxWidth_f32 (Rect (0, 0) (4019, 821) (4019, 824) (0, 3)) = Some 4102 ∧
  spec_destWidth (Rect (0, 0) (4019, 821) (4019, 824) (0, 3)) = 4101 ∧
  maxWidth_f32 (Rect (0, 0) (4019, 821) (4019, 824) (0, 3))
    ≠ Some (spec_destWidth (Rect (0, 0) (4019, 821) (4019, 824) (0, 3))).
Proof.
  assert (Hspec : spec_destWidth (Rect (0, 0) (4019, 821) (4019, 824) (0, 3)) = 4101).
  { rewrite <- (proj1 (dims_exact_formula _)). by vm_compute. }
  split; [reflexivity|]. split; [by vm_compute|]. split; [exact Hspec|].
  rewrite Hspec. by vm_compute.
Qed.

(** C5 (amended): when the ordered corners are pixel positions of a W by H
    image with (W-1)^2 + (H-1)^2 below 2^24, the two dimensions that the
    code computes in float32 are the floor of the larger Euclidean edge
    length, as in the formula of the specification, and
    [four_point_transform] builds its destination and dsize from them; for
    any two real lengths the larger truncation is the floor of the larger
    length. *)
Theorem dest_dims_float32_match_formula (W H : Z) (r : rect) :
  (W - 1) ^ 2 + (H - 1) ^ 2 < 2 ^ 24 →
  Forall (in_image W H) (rect_rows r) →
  maxWidth_f32 r = Some (spec_destWidth r) ∧
  maxHeight_f32 r = Some (spec_destHeight r) ∧
  maxWidth r = spec_destWidth r ∧ maxHeight r = spec_destHeight r ∧
  (∀ x y : R, Z.max (Int_part x) (Int_part y) = Int_part (Rmax x y)) ∧
  ∀ (cv : Cv2) (img : image) (pts : list point),
    order_points pts = Returned r →
    four_point_transform img pts
    = (M ← getPerspectiveTransform r
             (Rect (0, 0) (spec_destWidth r - 1, 0)
                   (spec_destWidth r - 1, spec_destHeight r - 1)
                   (0, spec_destHeight r - 1));
       warpPerspective img M (spec_destWidth r, spec_destHeight r)).
Proof.
  intros HD Hin.
  destruct (dims_f32_exact W H r HD Hin) as [Hw32 Hh32].
  destruct (dims_exact_formula r) as [Hw Hh].
  rewrite Hw32, Hh32, Hw, Hh. repeat (split; [done|]). split.
  - intros x y. by rewrite Int_part_Rmax.
  - intros cv img pts Hr. rewrite <- Hw, <- Hh. by apply four_point_transform_dsize.
Qed.

Lemma dest_dims_float32_match_formula_witness :
  maxWidth_f32 (Rect (9, 9) (209, 12) (207, 150) (8, 148))
    = Some (spec_destWidth (Rect (9, 9) (209, 12) (207, 150) (8, 148))) ∧
  maxHeight_f32 (Rect (9, 9) (209, 12) (207, 150) (8, 148))
    = Some (spec_destHeight (Rect (9, 9) (209, 12) (207, 150) (8, 148))) ∧
  maxWidth_f32 (Rect (9, 9) (209, 12) (207, 150) (8, 148)) = Some 200.
Proof.
  destruct (dest_dims_float32_match_formula 640 480
              (Rect (9, 9) (209, 12) (207, 150) (8, 148))) as (Hw & Hh & _).
  - by vm_compute.
  - repeat constructor; simpl; lia.
  - split; [exact Hw|]. split; [exact Hh|]. by vm_compute.
Defined.

(** ** Rectangles given in any order *)

Lemma first_min_at_elem (f : point → Z) (pts : list point) (p : point) :
  first_min_at f pts p → p ∈ pts ∧ ∀ q, q ∈ pts → f p ≤ f q.
Proof.
  intros (i & Hi & Hall). split; [by eapply list_elem_of_lookup_2|].
  intros q Hq. apply list_elem_of_lookup_1 in Hq as [j Hj]. by apply (Hall j).
Qed.

Lemma first_max_at_elem (f : point → Z) (pts : list point) (p : point) :
  first_max_at f pts p → p ∈ pts ∧ ∀ q, q ∈ pts → f q ≤ f p.
Proof.
  intros (i & Hi & Hall). split; [by eapply list_elem_of_lookup_2|].
  intros q Hq. apply list_elem_of_lookup_1 in Hq as [j Hj]. by apply (Hall j).
Qed.

(** Each row of the result is an extremal element of the input seen as a
    multiset, so the rows can be pinned down on any reordering of known points. *)
Lemma order_points_Permutation (pts corners : list point) :
  pts ≡ₚ corners → corners ≠ [] →
  ∃ r : rect, order_points pts = Returned r ∧
    (rect0 r ∈ corners ∧ ∀ q, q ∈ corners → psum (rect0 r) ≤ psum q) ∧
    (rect1 r ∈ corners ∧ ∀ q, q ∈ corners → pdiff (rect1 r) ≤ pdiff q) ∧
    (rect2 r ∈ corners ∧ ∀ q, q ∈ corners → psum q ≤ psum (rect2 r)) ∧
    (rect3 r ∈ corners ∧ ∀ q, q ∈ corners → pdiff q ≤ pdiff (rect3 r)).
Proof.
  intros Hp Hne.
  destruct (order_points_spec pts) as (r & Hr & H0 & H1 & H2 & H3).
  { intros ->. by apply Permutation_nil_l in Hp. }
  apply first_min_at_elem in H0, H1. apply first_max_at_elem in H2, H3.
  exists r. split; [done|]. setoid_rewrite Hp in H0. setoid_rewrite Hp in H1.
  setoid_rewrite Hp in H2. setoid_rewrite Hp in H3. done.
Qed.

(** From membership in four known corners and extremality against each of
    them, find which corner a row is. *)
Ltac pin_corner Hin Hext :=
  let a := fresh in let b := fresh in let c := fresh in let d := fresh in
  pose proof (Hext _ (list_elem_of_here _ _)) as a;
  pose proof (Hext _ (list_elem_of_further _ _ _ (list_elem_of_here _ _))) as b;
  pose proof (Hext _ (list_elem_of_further _ _ _
                        (list_elem_of_further _ _ _ (list_elem_of_here _ _)))) as c;
  pose proof (Hext _ (list_elem_of_further _ _ _
                        (list_elem_of_further _ _ _
                           (list_elem_of_further _ _ _ (list_elem_of_here _ _))))) as d;
  clear Hext;
  repeat (apply elem_of_cons in Hin as [Hin|Hin]);
  [ | | | | by apply elem_of_nil in Hin ];
  rewrite Hin in a, b, c, d |- *; unfold psum, pdiff in a, b, c, d; simpl in a, b, c, d;
  first [ reflexivity | exfalso; lia | f_equal; lia ].

Lemma four_point_transform_size `{Cv2Sized} (img : image) (pts : list point)
    (r : rect) (out : image) :
  order_points pts = Returned r → 0 < maxWidth r → 0 < maxHeight r →
  four_point_transform img pts = Returned out →
  size_wh out = (maxWidth r, maxHeight r).
Proof.
  intros Hr Hw Hh Hout. rewrite (four_point_transform_dsize img pts r Hr) in Hout.
  destruct (getPerspectiveTransform _ _) as [M|]; simpl in Hout; [|done].
  by apply (warp_size img M).
Qed.

Lemma order_points_rectangle (pts : list point) :
  pts ≡ₚ [(10, 10); (110, 10); (110, 60); (10, 60)] →
  order_points pts = Returned (Rect (10, 10) (110, 10) (110, 60) (10, 60)).
Proof.
  intros Hp.
  destruct (order_points_Permutation pts _ Hp)
    as ([p0 p1 p2 p3] & Hr & [I0 E0] & [I1 E1] & [I2 E2] & [I3 E3]); [done|].
  simpl in *. rewrite Hr. do 2 f_equal.
  - pin_corner I0 E0.
  - pin_corner I1 E1.
  - pin_corner I2 E2.
  - pin_corner I3 E3.
Qed.

(** C6: for the rectangle (10,10), (110,10), (110,60), (10,60) given in any
    of its orderings, destWidth is within 1 of 100 and destHeight within 1 of
    50; the destination corners are (0,0), (destWidth-1,0),
    (destWidth-1,destHeight-1), (0,destHeight-1) against the source corners in
    TL, TR, BR, BL order; the warp is asked for a raster of exactly
    destWidth by destHeight, which a collaborator honouring dsize delivers. *)
Theorem rectify_rectangle_any_order (pts : list point) :
  pts ≡ₚ [(10, 10); (110, 10); (110, 60); (10, 60)] →
  ∃ r : rect, order_points pts = Returned r ∧
    r = Rect (10, 10) (110, 10) (110, 60) (10, 60) ∧
    Z.abs (maxWidth r - 100) ≤ 1 ∧ Z.abs (maxHeight r - 50) ≤ 1 ∧
    ∀ (cv : Cv2) (img : image),
      four_point_transform img pts
      = (M ← getPerspectiveTransform r
               (Rect (0, 0) (maxWidth r - 1, 0)
                     (maxWidth r - 1, maxHeight r - 1) (0, maxHeight r - 1));
         warpPerspective img M (maxWidth r, maxHeight r)) ∧
      (Cv2Sized → ∀ out : image,
         four_point_transform img pts = Returned out →
         size_wh out = (maxWidth r, maxHeight r)) ∧
      (Cv2Returns → ∃ out : image, four_point_transform img pts = Returned out).
Proof.
  intros Hp. assert (Hr := order_points_rectangle pts Hp).
  eexists. split; [exact Hr|]. split; [reflexivity|].
  split; [vm_compute; discriminate|]. split; [vm_compute; discriminate|].
  intros cv img. split; [|split].
  - by apply four_point_transform_dsize.
  - intros Hsized out Hout. by apply (four_point_transform_size img pts).
  - intros Hret. apply four_point_transform_returns. intros ->.
    by apply Permutation_nil_l in Hp.
Qed.

Lemma rectify_rectangle_any_order_witness :
  ∃ r : rect,
    order_points [(110, 10); (10, 10); (110, 60); (10, 60)] = Returned r ∧
    r = Rect (10, 10) (110, 10) (110, 60) (10, 60) ∧
    Z.abs (maxWidth r - 100) ≤ 1 ∧ Z.abs (maxHeight r - 50) ≤ 1 ∧
    ∀ (cv : Cv2) (img : image),
      four_point_transform img [(110, 10); (10, 10); (110, 60); (10, 60)]
      = (M ← getPerspectiveTransform r
               (Rect (0, 0) (maxWidth r - 1, 0)
                     (maxWidth r - 1, maxHeight r - 1) (0, maxHeight r - 1));
         warpPerspective img M (maxWidth r, maxHeight r)) ∧
      (Cv2Sized → ∀ out : image,
         four_point_transform img [(110, 10); (10, 10); (110, 60); (10, 60)] = Returned out →
         size_wh out = (maxWidth r, maxHeight r)) ∧
      (Cv2Returns → ∃ out : image,
         four_point_transform img [(110, 10); (10, 10); (110, 60); (10, 60)] = Returned out).
Proof.
  apply (rectify_rectangle_any_order [(110, 10); (10, 10); (110, 60); (10, 60)]).
  apply perm_swap.
Defined.

(** ** Rectifying an already rectified frame *)

Lemma order_points_upright (W H : Z) (pts : list point) :
  1 ≤ W → 1 ≤ H →
  pts ≡ₚ [(0, 0); (W - 1, 0); (W - 1, H - 1); (0, H - 1)] →
  order_points pts = Returned (Rect (0, 0) (W - 1, 0) (W - 1, H - 1) (0, H - 1)).
Proof.
  intros HW HH Hp.
  destruct (order_points_Permutation pts _ Hp)
    as ([p0 p1 p2 p3] & Hr & [I0 E0] & [I1 E1] & [I2 E2] & [I3 E3]); [done|].
  simpl in *. rewrite Hr. do 2 f_equal.
  - pin_corner I0 E0.
  - pin_corner I1 E1.
  - pin_corner I2 E2.
  - pin_corner I3 E3.
Qed.

Lemma int_sqrt_axis (a : Z) : 0 ≤ a → int_sqrt (a ^ 2 + 0 ^ 2) = a.
Proof.
  intros Ha. unfold int_sqrt. replace (a ^ 2 + 0 ^ 2) with (a * a) by lia.
  by apply Z.sqrt_square.
Qed.

(** C9: on the corner set (0,0), (W-1,0), (W-1,H-1), (0,H-1) of an upright
    W by H frame, in any order, the dimensions that [four_point_transform]
    computes and asks of the warp differ from W and H by at most 1 (they
    are W-1 and H-1). *)
Theorem rectify_upright_frame_dims (W H : Z) (pts : list point) :
  1 ≤ W → 1 ≤ H →
  pts ≡ₚ [(0, 0); (W - 1, 0); (W - 1, H - 1); (0, H - 1)] →
  ∃ r : rect, order_points pts = Returned r ∧
    maxWidth r = W - 1 ∧ maxHeight r = H - 1 ∧
    Z.abs (maxWidth r - W) ≤ 1 ∧ Z.abs (maxHeight r - H) ≤ 1 ∧
    ∀ (cv : Cv2) (img : image),
      four_point_transform img pts
      = (M ← getPerspectiveTransform r (dst_rect (maxWidth r) (maxHeight r));
         warpPerspective img M (maxWidth r, maxHeight r)) ∧
      (Cv2Sized → 2 ≤ W → 2 ≤ H → ∀ out : image,
         four_point_transform img pts = Returned out →
         size_wh out = (maxWidth r, maxHeight r)).
Proof.
  intros HW HH Hp. assert (Hr := order_points_upright W H pts HW HH Hp).
  assert (Hw : maxWidth (Rect (0, 0) (W - 1, 0) (W - 1, H - 1) (0, H - 1)) = W - 1).
  { unfold maxWidth, edge_sq. simpl.
    replace (W - 1 - 0) with (W - 1) by lia.
    replace (H - 1 - (H - 1)) with 0 by lia. replace (0 - 0) with 0 by lia.
    rewrite int_sqrt_axis by lia. lia. }
  assert (Hh : maxHeight (Rect (0, 0) (W - 1, 0) (W - 1, H - 1) (0, H - 1)) = H - 1).
  { unfold maxHeight, edge_sq. simpl.
    replace (W - 1 - (W - 1)) with 0 by lia. replace (0 - 0) with 0 by lia.
    replace (0 - (H - 1)) with (- (H - 1)) by lia.
    replace ((- (H - 1)) ^ 2) with ((H - 1) ^ 2) by lia.
    replace (0 ^ 2 + (H - 1) ^ 2) with ((H - 1) ^ 2 + 0 ^ 2) by lia.
    rewrite int_sqrt_axis by lia. lia. }
  exists (Rect (0, 0) (W - 1, 0) (W - 1, H - 1) (0, H - 1)).
  split; [exact Hr|]. split; [exact Hw|]. split; [exact Hh|].
  split; [rewrite Hw; lia|]. split; [rewrite Hh; lia|].
  intros cv img. split; [by apply four_point_transform_dsize|].
  intros Hsized HW2 HH2 out Hout.
  apply (four_point_transform_size img pts); [done|rewrite Hw; lia|rewrite Hh; lia|done].
Qed.

Lemma rectify_upright_frame_dims_witness :
  ∃ r : rect,
    order_points [(0, 0); (100 - 1, 0); (100 - 1, 50 - 1); (0, 50 - 1)] = Returned r ∧
    maxWidth r = 100 - 1 ∧ maxHeight r = 50 - 1 ∧
    Z.abs (maxWidth r - 100) ≤ 1 ∧ Z.abs (maxHeight r - 50) ≤ 1 ∧
    ∀ (cv : Cv2) (img : image),
      four_point_transform img [(0, 0); (100 - 1, 0); (100 - 1, 50 - 1); (0, 50 - 1)]
      = (M ← getPerspectiveTransform r (dst_rect (maxWidth r) (maxHeight r));
         warpPerspective img M (maxWidth r, maxHeight r)) ∧
      (Cv2Sized → 2 ≤ 100 → 2 ≤ 50 → ∀ out : image,
         four_point_transform img [(0, 0); (100 - 1, 0); (100 - 1, 50 - 1); (0, 50 - 1)]
           = Returned out →
         size_wh out = (maxWidth r, maxHeight r)).
Proof.
  apply (rectify_upright_frame_dims 100 50); [lia|lia|reflexivity].
Defined.

(** ** The rows of the result against the input points *)

(** C10: every row of the result of [order_points] on four points is one of
    the input points; yet the rows need not be a rearrangement of the input:
    on four distinct points of one diagonal, all tied in y-x, the first point
    fills rows 0, 1 and 3 and two input points are left out. *)
Theorem order_points_rows_from_input :
  (∀ pts : list point, length pts = 4%nat →
     ∃ r : rect, order_points pts = Returned r ∧
       ∀ p : point, p ∈ rect_rows r → p ∈ pts) ∧
  (∃ (pts : list point) (r : rect),
     length pts = 4%nat ∧ NoDup pts ∧ order_points pts = Returned r ∧
     ¬ rect_rows r ≡ₚ pts ∧
     rect0 r = rect1 r ∧ rect1 r = rect3 r ∧
     ∃ p : point, p ∈ pts ∧ p ∉ rect_rows r).
Proof.
  split.
  - intros pts Hlen.
    destruct (order_points_spec pts) as (r & Hr & H0 & H1 & H2 & H3).
    { intros ->. discriminate. }
    apply first_min_at_elem in H0 as [H0 _], H1 as [H1 _].
    apply first_max_at_elem in H2 as [H2 _], H3 as [H3 _].
    exists r. split; [done|]. intros p Hp. unfold rect_rows in Hp.
    repeat (apply elem_of_cons in Hp as [->|Hp]; [done|]).
    by apply elem_of_nil in Hp.
  - exists [(0, 0); (1, 1); (2, 2); (3, 3)], (Rect (0, 0) (0, 0) (3, 3) (0, 0)).
    assert (Hout : (1, 1) ∉ rect_rows (Rect (0, 0) (0, 0) (3, 3) (0, 0))).
    { unfold rect_rows. simpl. intros Hp.
      repeat (apply elem_of_cons in Hp as [[=]|Hp]).
      by apply elem_of_nil in Hp. }
    split; [reflexivity|]. split.
    { repeat (apply NoDup_cons; split;
                [intros Hp; repeat (apply elem_of_cons in Hp as [[=]|Hp]);
                 by apply elem_of_nil in Hp|]).
      apply NoDup_nil_2. }
    split; [reflexivity|]. split.
    { intros Hperm. apply Hout. rewrite Hperm.
      apply list_elem_of_further, list_elem_of_here. }
    split; [reflexivity|]. split; [reflexivity|].
    exists (1, 1). split; [|exact Hout].
    apply list_elem_of_further, list_elem_of_here.
Qed.

(** * Further properties of the code *)

(** ** order_points beyond four points *)

(** X1: [order_points] returns on every non-empty array of points, whatever
    its length, and raises [ValueError] (from [argmin]) exactly on the empty
    one; it never raises [IndexError]. *)
Theorem order_points_raises_iff_empty (pts : list point) :
  (order_points pts = Raised ValueError ↔ pts = []) ∧
  ((∃ r : rect, order_points pts = Returned r) ↔ pts ≠ []) ∧
  order_points pts ≠ Raised IndexError ∧ order_points pts ≠ Raised CvError.
Proof.
  destruct pts as [|p pts].
  - repeat split; try done. by intros [r Hr].
  - destruct (order_points_spec (p :: pts)) as (r & Hr & _); [done|].
    rewrite Hr. repeat split; try done. by exists r.
Qed.

Lemma key_inj_on (f : point → Z) (l : list point) (p q : point) :
  NoDup (f <$> l) → p ∈ l → q ∈ l → f p = f q → p = q.
Proof.
  induction l as [|a l IH]; intros Hnd Hp Hq Hpq; [by apply elem_of_nil in Hp|].
  rewrite fmap_cons in Hnd. apply NoDup_cons in Hnd as [Ha Hnd].
  apply elem_of_cons in Hp as [->|Hp]; apply elem_of_cons in Hq as [->|Hq].
  - done.
  - exfalso. apply Ha. rewrite Hpq. by apply list_elem_of_fmap_2.
  - exfalso. apply Ha. rewrite <- Hpq. by apply list_elem_of_fmap_2.
  - by apply IH.
Qed.

(** X2: when no two input points share x+y and no two share y-x, the result
    of [order_points] does not depend on the order of the input. *)
Theorem order_points_order_independent (pts pts' : list point) :
  NoDup (psum <$> pts) → NoDup (pdiff <$> pts) → pts' ≡ₚ pts →
  order_points pts' = order_points pts.
Proof.
  intros Hs Hd Hp.
  destruct pts as [|a pts0].
  { apply Permutation_nil_r in Hp. by subst. }
  set (pts := a :: pts0) in *.
  destruct (order_points_Permutation pts' pts Hp)
    as ([p0 p1 p2 p3] & Hr' & [I0 E0] & [I1 E1] & [I2 E2] & [I3 E3]); [done|].
  destruct (order_points_Permutation pts pts)
    as ([q0 q1 q2 q3] & Hr & [J0 F0] & [J1 F1] & [J2 F2] & [J3 F3]); [done..|].
  simpl in *. rewrite Hr', Hr. do 2 f_equal.
  - apply (key_inj_on psum pts); [done..|].
    specialize (E0 q0 J0). specialize (F0 p0 I0). lia.
  - apply (key_inj_on pdiff pts); [done..|].
    specialize (E1 q1 J1). specialize (F1 p1 I1). lia.
  - apply (key_inj_on psum pts); [done..|].
    specialize (E2 q2 J2). specialize (F2 p2 I2). lia.
  - apply (key_inj_on pdiff pts); [done..|].
    specialize (E3 q3 J3). specialize (F3 p3 I3). lia.
Qed.

Lemma order_points_order_independent_witness :
  order_points [(209, 12); (9, 9); (207, 150); (8, 148)]
  = order_points [(9, 9); (209, 12); (207, 150); (8, 148)].
Proof.
  apply order_points_order_independent.
  - apply (bool_decide_unpack _). vm_compute. exact I.
  - apply (bool_decide_unpack _). vm_compute. exact I.
  - apply perm_swap.
Defined.

Lemma rect_rows_elem (r : rect) (p : point) :
  p ∈ rect_rows r ↔ p = rect0 r ∨ p = rect1 r ∨ p = rect2 r ∨ p = rect3 r.
Proof.
  unfold rect_rows. rewrite !elem_of_cons, elem_of_nil. tauto.
Qed.

(** X3: without ties in x+y and in y-x, ordering the four rows that
    [order_points] returned gives these rows back: corners that are already
    ordered pass through [four_point_transform]'s own call unchanged. *)
Theorem order_points_idempotent (pts : list point) (r : rect) :
  NoDup (psum <$> pts) → NoDup (pdiff <$> pts) →
  order_points pts = Returned r →
  order_points (rect_rows r) = Returned r.
Proof.
  intros Hs Hd Hr.
  assert (Hne : pts ≠ []) by (intros ->; discriminate).
  destruct (order_points_Permutation pts pts)
    as (r' & Hr' & [J0 F0] & [J1 F1] & [J2 F2] & [J3 F3]); [done..|].
  rewrite Hr in Hr'. injection Hr' as <-.
  assert (Hrows : ∀ p, p ∈ rect_rows r → p ∈ pts).
  { intros p Hp. apply rect_rows_elem in Hp as [ -> | [ -> | [ -> | -> ] ] ]; done. }
  destruct (order_points_Permutation (rect_rows r) (rect_rows r))
    as ([p0 p1 p2 p3] & Hn & [I0 E0] & [I1 E1] & [I2 E2] & [I3 E3]); [done..|].
  simpl in *. rewrite Hn. destruct r as [q0 q1 q2 q3]. simpl in *. do 2 f_equal.
  - apply (key_inj_on psum pts); [by auto..|].
    specialize (E0 q0). specialize (F0 p0 (Hrows _ I0)).
    assert (psum p0 ≤ psum q0) by (apply E0, rect_rows_elem; simpl; auto). lia.
  - apply (key_inj_on pdiff pts); [by auto..|].
    specialize (E1 q1). specialize (F1 p1 (Hrows _ I1)).
    assert (pdiff p1 ≤ pdiff q1) by (apply E1, rect_rows_elem; simpl; auto). lia.
  - apply (key_inj_on psum pts); [by auto..|].
    specialize (E2 q2). specialize (F2 p2 (Hrows _ I2)).
    assert (psum q2 ≤ psum p2) by (apply E2, rect_rows_elem; simpl; auto). lia.
  - apply (key_inj_on pdiff pts); [by auto..|].
    specialize (E3 q3). specialize (F3 p3 (Hrows _ I3)).
    assert (pdiff q3 ≤ pdiff p3) by (apply E3, rect_rows_elem; simpl; auto). lia.
Qed.

Lemma order_points_idempotent_witness :
  order_points (rect_rows (Rect (9, 9) (209, 12) (207, 150) (8, 148)))
  = Returned (Rect (9, 9) (209, 12) (207, 150) (8, 148)).
Proof.
  apply (order_points_idempotent [(207, 150); (8, 148); (209, 12); (9, 9)]).
  - apply (bool_decide_unpack _). vm_compute. exact I.
  - apply (bool_decide_unpack _). vm_compute. exact I.
  - reflexivity.
Defined.

(** With a tie the rows can change on a second pass. *)
Example order_points_not_idempotent_on_ties :
  order_points [(1, 1); (0, 0); (0, 5); (3, 9)]
    = Returned (Rect (0, 0) (1, 1) (3, 9) (3, 9)) ∧
  order_points (rect_rows (Rect (0, 0) (1, 1) (3, 9) (3, 9)))
    = Returned (Rect (0, 0) (0, 0) (3, 9) (3, 9)).
Proof. split; reflexivity. Qed.

(** ** Moving the quadrilateral *)

Lemma argmin_loop_shift (c : Z) (l : list Z) (i : nat) (best : Z) (best_i : nat) :
  argmin_loop ((fun x => x + c) <$> l) i (best + c) best_i = argmin_loop l i best best_i.
Proof.
  revert i best best_i. induction l as [|x l IH]; intros i best best_i; simpl; [done|].
  destruct (Z.ltb_spec (x + c) (best + c)), (Z.ltb_spec x best); try lia; apply IH.
Qed.

Lemma argmax_loop_shift (c : Z) (l : list Z) (i : nat) (best : Z) (best_i : nat) :
  argmax_loop ((fun x => x + c) <$> l) i (best + c) best_i = argmax_loop l i best best_i.
Proof.
  revert i best best_i. induction l as [|x l IH]; intros i best best_i; simpl; [done|].
  destruct (Z.ltb_spec (best + c) (x + c)), (Z.ltb_spec best x); try lia; apply IH.
Qed.

Lemma argmin_shift (c : Z) (l : list Z) : argmin ((fun x => x + c) <$> l) = argmin l.
Proof. destruct l as [|x l]; simpl; [done|]. by rewrite argmin_loop_shift. Qed.

Lemma argmax_shift (c : Z) (l : list Z) : argmax ((fun x => x + c) <$> l) = argmax l.
Proof. destruct l as [|x l]; simpl; [done|]. by rewrite argmax_loop_shift. Qed.

Lemma getitem_fmap {A B : Type} (f : A → B) (l : list A) (i : nat) (a : A) :
  getitem l i = Returned a → getitem (f <$> l) i = Returned (f a).
Proof.
  unfold getitem. rewrite list_lookup_fmap.
  destruct (l !! i); simpl; [|done]. by intros [= ->].
Qed.

Lemma edge_sq_translate (a b : Z) (p q : point) :
  edge_sq (translate a b p) (translate a b q) = edge_sq p q.
Proof. unfold edge_sq, translate. simpl. f_equal; f_equal; lia. Qed.

(** X4: moving all the points by the same vector moves the four rows of
    [order_points] by that vector, ties included, and leaves the two
    destination dimensions unchanged: the size of the output does not
    depend on where the quadrilateral lies. *)
Theorem order_points_translate (a b : Z) (pts : list point) (r : rect) :
  order_points pts = Returned r →
  order_points (translate a b <$> pts) = Returned (rect_map (translate a b) r) ∧
  maxWidth (rect_map (translate a b) r) = maxWidth r ∧
  maxHeight (rect_map (translate a b) r) = maxHeight r.
Proof.
  intros Hr. split; [|split].
  - unfold order_points in *. cbv zeta in *.
    rewrite <- !list_fmap_compose.
    rewrite (list_fmap_ext (psum ∘ translate a b) ((fun x => x + (a + b)) ∘ psum) pts)
      by (intros i [x y] _; unfold psum, translate; simpl; lia).
    rewrite (list_fmap_ext (pdiff ∘ translate a b) ((fun x => x + (b - a)) ∘ pdiff) pts)
      by (intros i [x y] _; unfold pdiff, translate; simpl; lia).
    rewrite !list_fmap_compose, !argmin_shift, !argmax_shift.
    destruct (argmin (psum <$> pts)) as [i0|]; simpl in *; [|done].
    destruct (getitem pts i0) as [r0|] eqn:G0; simpl in *; [|done].
    rewrite (getitem_fmap _ _ _ _ G0); simpl.
    destruct (argmax (psum <$> pts)) as [i2|]; simpl in *; [|done].
    destruct (getitem pts i2) as [r2|] eqn:G2; simpl in *; [|done].
    rewrite (getitem_fmap _ _ _ _ G2); simpl.
    destruct (argmin (pdiff <$> pts)) as [i1|]; simpl in *; [|done].
    destruct (getitem pts i1) as [r1|] eqn:G1; simpl in *; [|done].
    rewrite (getitem_fmap _ _ _ _ G1); simpl.
    destruct (argmax (pdiff <$> pts)) as [i3|]; simpl in *; [|done].
    destruct (getitem pts i3) as [r3|] eqn:G3; simpl in *; [|done].
    rewrite (getitem_fmap _ _ _ _ G3); simpl.
    injection Hr as <-. reflexivity.
  - destruct r. unfold maxWidth, rect_map. simpl. by rewrite !edge_sq_translate.
  - destruct r. unfold maxHeight, rect_map. simpl. by rewrite !edge_sq_translate.
Qed.

Lemma order_points_translate_witness :
  order_points (translate 100 (-7) <$> [(207, 150); (8, 148); (209, 12); (9, 9)])
    = Returned (rect_map (translate 100 (-7)) (Rect (9, 9) (209, 12) (207, 150) (8, 148))) ∧
  maxWidth (rect_map (translate 100 (-7)) (Rect (9, 9) (209, 12) (207, 150) (8, 148)))
    = maxWidth (Rect (9, 9) (209, 12) (207, 150) (8, 148)) ∧
  maxHeight (rect_map (translate 100 (-7)) (Rect (9, 9) (209, 12) (207, 150) (8, 148)))
    = maxHeight (Rect (9, 9) (209, 12) (207, 150) (8, 148)).
Proof.
  apply (order_points_translate 100 (-7) [(207, 150); (8, 148); (209, 12); (9, 9)]).
  reflexivity.
Defined.

(** ** The two destination dimensions *)

Lemma int_sqrt_edge_zero (p q : point) : int_sqrt (edge_sq p q) = 0 ↔ p = q.
Proof.
  unfold int_sqrt. split.
  - intros Hz. assert (Hn := edge_sq_nonneg p q).
    destruct (Z.sqrt_spec _ Hn) as [_ Hhi]. rewrite Hz in Hhi.
    destruct p as [px py], q as [qx qy]. unfold edge_sq in *. simpl in *.
    assert (px - qx = 0) by nia. assert (py - qy = 0) by nia.
    f_equal; lia.
  - intros ->. unfold edge_sq. replace (q.1 - q.1) with 0 by lia.
    replace (q.2 - q.2) with 0 by lia. reflexivity.
Qed.

Lemma int_sqrt_nonneg (n : Z) : 0 ≤ int_sqrt n.
Proof. apply Z.sqrt_nonneg. Qed.

(** X5: the computed width is 0 exactly when the top corners coincide and
    the bottom corners coincide, and the height is 0 exactly when the right
    corners coincide and the left corners coincide; neither is ever negative. *)
Theorem dest_dims_zero_iff (r : rect) :
  (maxWidth r = 0 ↔ rect1 r = rect0 r ∧ rect2 r = rect3 r) ∧
  (maxHeight r = 0 ↔ rect1 r = rect2 r ∧ rect0 r = rect3 r) ∧
  0 ≤ maxWidth r ∧ 0 ≤ maxHeight r.
Proof.
  destruct r as [tl tr br bl]. unfold maxWidth, maxHeight. simpl.
  assert (A := int_sqrt_nonneg (edge_sq br bl)).
  assert (B := int_sqrt_nonneg (edge_sq tr tl)).
  assert (C := int_sqrt_nonneg (edge_sq tr br)).
  assert (D := int_sqrt_nonneg (edge_sq tl bl)).
  rewrite <- (int_sqrt_edge_zero tr tl), <- (int_sqrt_edge_zero br bl),
    <- (int_sqrt_edge_zero tr br), <- (int_sqrt_edge_zero tl bl).
  lia.
Qed.

Lemma int_sqrt_sq_le (n b : Z) : 0 ≤ n → n ≤ b → int_sqrt n ^ 2 ≤ b.
Proof.
  intros Hn Hb. unfold int_sqrt. destruct (Z.sqrt_spec n Hn) as [Hlo _]. nia.
Qed.

(** X6: for points that are pixel positions of a W by H image with
    (W-1)^2 + (H-1)^2 below 2^24, the two destination dimensions computed
    in float32 are at most the diagonal of the image: their squares do not
    exceed (W-1)^2 + (H-1)^2. *)
Theorem dest_dims_within_diagonal (W H : Z) (pts : list point) :
  pts ≠ [] → Forall (in_image W H) pts →
  (W - 1) ^ 2 + (H - 1) ^ 2 < 2 ^ 24 →
  ∃ (r : rect) (w h : Z), order_points pts = Returned r ∧
    maxWidth_f32 r = Some w ∧ maxHeight_f32 r = Some h ∧
    w ^ 2 ≤ (W - 1) ^ 2 + (H - 1) ^ 2 ∧
    h ^ 2 ≤ (W - 1) ^ 2 + (H - 1) ^ 2.
Proof.
  intros Hne Hin HD.
  destruct (order_points_Permutation pts pts)
    as ([tl tr br bl] & Hr & [I0 _] & [I1 _] & [I2 _] & [I3 _]); [done..|].
  simpl in *. rewrite Forall_forall in Hin.
  destruct (dims_f32_exact W H (Rect tl tr br bl) HD) as [Hw Hh].
  { unfold rect_rows. simpl. repeat (apply Forall_cons; split; [by apply Hin|]).
    apply Forall_nil_2. }
  exists (Rect tl tr br bl), (maxWidth (Rect tl tr br bl)), (maxHeight (Rect tl tr br bl)).
  split; [done|]. split; [done|]. split; [done|].
  assert (Hedge : ∀ p q, p ∈ pts → q ∈ pts →
            int_sqrt (edge_sq p q) ^ 2 ≤ (W - 1) ^ 2 + (H - 1) ^ 2).
  { intros p q Hp Hq. apply int_sqrt_sq_le; [apply edge_sq_nonneg|].
    apply edge_sq_in_image; auto. }
  unfold maxWidth, maxHeight. split.
  - destruct (Z.max_spec (int_sqrt (edge_sq br bl)) (int_sqrt (edge_sq tr tl)))
      as [[_ ->]|[_ ->]]; auto.
  - destruct (Z.max_spec (int_sqrt (edge_sq tr br)) (int_sqrt (edge_sq tl bl)))
      as [[_ ->]|[_ ->]]; auto.
Qed.

Lemma dest_dims_within_diagonal_witness :
  ∃ (r : rect) (w h : Z),
    order_points [(207, 150); (8, 148); (209, 12); (9, 9)] = Returned r ∧
    maxWidth_f32 r = Some w ∧ maxHeight_f32 r = Some h ∧
    w ^ 2 ≤ (640 - 1) ^ 2 + (480 - 1) ^ 2 ∧
    h ^ 2 ≤ (640 - 1) ^ 2 + (480 - 1) ^ 2.
Proof.
  apply (dest_dims_within_diagonal 640 480 [(207, 150); (8, 148); (209, 12); (9, 9)]).
  - discriminate.
  - repeat constructor; simpl; lia.
  - by vm_compute.
Defined.

Lemma order_points_axis_aligned (x y w h : Z) (pts : list point) :
  0 ≤ w → 0 ≤ h →
  pts ≡ₚ [(x, y); (x + w, y); (x + w, y + h); (x, y + h)] →
  order_points pts = Returned (Rect (x, y) (x + w, y) (x + w, y + h) (x, y + h)).
Proof.
  intros Hw Hh Hp.
  destruct (order_points_Permutation pts _ Hp)
    as ([p0 p1 p2 p3] & Hr & [I0 E0] & [I1 E1] & [I2 E2] & [I3 E3]); [done|].
  simpl in *. rewrite Hr. do 2 f_equal.
  - pin_corner I0 E0.
  - pin_corner I1 E1.
  - pin_corner I2 E2.
  - pin_corner I3 E3.
Qed.

(** X7: for an axis-aligned rectangle with top-left corner (x, y), width w
    and height h, its corners given in any order, [order_points] returns
    them as top-left, top-right, bottom-right, bottom-left and the two
    destination dimensions are exactly w and h. *)
Theorem rectify_axis_aligned (x y w h : Z) (pts : list point) :
  0 ≤ w → 0 ≤ h →
  pts ≡ₚ [(x, y); (x + w, y); (x + w, y + h); (x, y + h)] →
  order_points pts = Returned (Rect (x, y) (x + w, y) (x + w, y + h) (x, y + h)) ∧
  maxWidth (Rect (x, y) (x + w, y) (x + w, y + h) (x, y + h)) = w ∧
  maxHeight (Rect (x, y) (x + w, y) (x + w, y + h) (x, y + h)) = h.
Proof.
  intros Hw Hh Hp. split; [|split].
  - by apply order_points_axis_aligned.
  - unfold maxWidth, edge_sq. simpl.
    replace (x + w - x) with w by lia. replace (y + h - (y + h)) with 0 by lia.
    replace (y - y) with 0 by lia. rewrite int_sqrt_axis by lia. lia.
  - unfold maxHeight, edge_sq. simpl.
    replace (x + w - (x + w)) with 0 by lia. replace (x - x) with 0 by lia.
    replace (y - (y + h)) with (- h) by lia.
    replace (0 ^ 2 + (- h) ^ 2) with (h ^ 2 + 0 ^ 2) by lia.
    rewrite int_sqrt_axis by lia. lia.
Qed.

Lemma rectify_axis_aligned_witness :
  order_points [(10 + 100, 10); (10, 10); (10 + 100, 10 + 50); (10, 10 + 50)]
    = Returned (Rect (10, 10) (10 + 100, 10) (10 + 100, 10 + 50) (10, 10 + 50)) ∧
  maxWidth (Rect (10, 10) (10 + 100, 10) (10 + 100, 10 + 50) (10, 10 + 50)) = 100 ∧
  maxHeight (Rect (10, 10) (10 + 100, 10) (10 + 100, 10 + 50) (10, 10 + 50)) = 50.
Proof.
  apply (rectify_axis_aligned 10 10 100 50); [lia|lia|apply perm_swap].
Defined.

(** ** More on findLargestCountours *)

Section FindLargestMore.
Context {C : Type}.
Implicit Types (cl : list C) (ws : list Z).

(** X8: on two lists of the same length, [findLargestCountours] returns
    exactly when they hold at least two entries. *)
Theorem findLargestCountours_returns_iff cl ws :
  length cl = length ws →
  (∃ (sel : list C * list Z) (s' : store C),
     findLargestCountours (Store cl ws) = (Returned sel, s')) ↔ (2 ≤ length ws)%nat.
Proof.
  intros Hlen. split.
  - intros (sel & s' & Hrun).
    destruct (le_lt_dec 2 (length ws)) as [|Hlt]; [done|].
    apply (findLargestCountours_few cl ws Hlen) in Hlt.
    rewrite Hrun in Hlt. discriminate.
  - intros H2.
    destruct (findLargestCountours_returns cl ws Hlen H2)
      as (i & j & c1 & c2 & w1 & w2 & _ & _ & _ & _ & _ & _ & Hrun).
    eauto.
Qed.

(** X9: the two widths come back largest first, and no width left in the
    input list exceeds the second of them. *)
Theorem findLargestCountours_descending cl ws :
  length cl = length ws → (2 ≤ length ws)%nat →
  ∃ (c1 c2 : C) (w1 w2 : Z) (s' : store C),
    findLargestCountours (Store cl ws) = (Returned ([c1; c2], [w1; w2]), s') ∧
    w2 ≤ w1 ∧ ∀ w : Z, w ∈ cntWidths s' → w ≤ w2.
Proof.
  intros Hlen H2.
  destruct (findLargestCountours_returns cl ws Hlen H2)
    as (i & j & c1 & c2 & w1 & w2 & Hc1 & Hw1 & Hc2 & Hw2 & Hmax1 & Hmax2 & Hrun).
  exists c1, c2, w1, w2, (Store (delete j (delete i cl)) (delete j (delete i ws))).
  split; [done|]. split.
  - assert (Hin : w2 ∈ ws).
    { rewrite (delete_Permutation ws i w1 Hw1).
      apply list_elem_of_further. by eapply list_elem_of_lookup_2. }
    apply list_elem_of_lookup_1 in Hin as [k Hk]. by apply (Hmax1 k).
  - simpl. intros w Hw.
    assert (Hin : w ∈ delete i ws).
    { rewrite (delete_Permutation (delete i ws) j w2 Hw2). by apply list_elem_of_further. }
    apply list_elem_of_lookup_1 in Hin as [k Hk]. by apply (Hmax2 k).
Qed.

(** X10: the two lists stay in step.  Called on the components of a list of
    (candidate, width) pairs, it returns the components of two of these
    pairs and leaves in the input lists the components of the others, in
    their original order. *)
Theorem findLargestCountours_keeps_pairs (cands : list (C * Z)) :
  (2 ≤ length cands)%nat →
  ∃ (k1 k2 : C * Z) (rest : list (C * Z)),
    findLargestCountours (Store cands.*1 cands.*2)
      = (Returned ([k1; k2].*1, [k1; k2].*2), Store rest.*1 rest.*2) ∧
    cands ≡ₚ k1 :: k2 :: rest ∧ rest `sublist_of` cands.
Proof.
  intros H2.
  destruct (findLargestCountours_returns cands.*1 cands.*2)
    as (i & j & c1 & c2 & w1 & w2 & Hc1 & Hw1 & Hc2 & Hw2 & _ & _ & Hrun).
  { by rewrite !length_fmap. }
  { by rewrite length_fmap. }
  rewrite <- !(list_fmap_delete fst), <- !(list_fmap_delete snd) in Hrun.
  rewrite <- (list_fmap_delete fst) in Hc2. rewrite <- (list_fmap_delete snd) in Hw2.
  rewrite list_lookup_fmap in Hc1. rewrite list_lookup_fmap in Hc2.
  rewrite list_lookup_fmap in Hw1. rewrite list_lookup_fmap in Hw2.
  destruct (cands !! i) as [k1|] eqn:Hk1; simplify_eq/=.
  destruct (delete i cands !! j) as [k2|] eqn:Hk2; simplify_eq/=.
  exists k1, k2, (delete j (delete i cands)). split; [done|]. split.
  - rewrite <- (delete_Permutation (delete i cands) j k2 Hk2).
    by apply delete_Permutation.
  - etrans; apply sublist_delete.
Qed.

(** X11: the failure is not clean.  With a single candidate the lists have
    already been emptied by the first extraction when [ValueError] is
    raised; with none they are empty to begin with. *)
Theorem findLargestCountours_failure_empties cl ws :
  length cl = length ws → (length ws < 2)%nat →
  findLargestCountours (Store cl ws) = (Raised ValueError, Store [] []).
Proof.
  intros Hlen Hlt.
  destruct ws as [|w [|w' ws]]; simpl in Hlt; [| |lia].
  - destruct cl; [reflexivity|discriminate].
  - destruct cl as [|c [|c' cl]]; simpl in Hlen; try discriminate.
    unfold findLargestCountours, mbind, St_bind, widths_index_of_max,
      cntList_getitem, cntWidths_getitem, cntList_pop, cntWidths_pop, getitem,
      index_of_max, py_index.
    simpl. rewrite Z.eqb_refl. reflexivity.
Qed.

End FindLargestMore.

Lemma findLargestCountours_returns_iff_witness :
  (∃ (sel : list string * list Z) (s' : store string),
     findLargestCountours (Store ["a"; "b"; "c"]%string [1; 3; 2]) = (Returned sel, s'))
  ↔ (2 ≤ length [1%Z; 3%Z; 2%Z])%nat.
Proof.
  apply (findLargestCountours_returns_iff ["a"; "b"; "c"]%string [1; 3; 2]).
  reflexivity.
Defined.

Lemma findLargestCountours_descending_witness :
  ∃ (c1 c2 : string) (w1 w2 : Z) (s' : store string),
    findLargestCountours (Store ["a"; "b"; "c"; "d"]%string [50; 200; 150; 80])
      = (Returned ([c1; c2], [w1; w2]), s') ∧
    w2 ≤ w1 ∧ ∀ w : Z, w ∈ cntWidths s' → w ≤ w2.
Proof.
  apply (findLargestCountours_descending ["a"; "b"; "c"; "d"]%string [50; 200; 150; 80]).
  - reflexivity.
  - simpl. lia.
Defined.

Lemma findLargestCountours_keeps_pairs_witness :
  ∃ (k1 k2 : string * Z) (rest : list (string * Z)),
    findLargestCountours
      (Store [("a"%string, 50); ("b"%string, 200); ("c"%string, 150)].*1
             [("a"%string, 50); ("b"%string, 200); ("c"%string, 150)].*2)
      = (Returned ([k1; k2].*1, [k1; k2].*2), Store rest.*1 rest.*2) ∧
    [("a"%string, 50); ("b"%string, 200); ("c"%string, 150)] ≡ₚ k1 :: k2 :: rest ∧
    rest `sublist_of` [("a"%string, 50); ("b"%string, 200); ("c"%string, 150)].
Proof.
  apply (findLargestCountours_keeps_pairs
           [("a"%string, 50); ("b"%string, 200); ("c"%string, 150)]).
  simpl. lia.
Defined.

Lemma findLargestCountours_failure_empties_witness :
  findLargestCountours (Store ["a"%string] [200]) = (Raised ValueError, Store [] []).
Proof.
  apply (findLargestCountours_failure_empties ["a"%string] [200]).
  - reflexivity.
  - simpl. lia.
Defined.

(** ** The candidate loop *)

Section CollectFacts.
Context `{Cv2}.

Lemma collect_screens_acc (approx : contour → polygon) (rectOf : contour → Z * Z * Z * Z)
    (cnts : list contour) (cl : list polygon) (ws : list Z) :
  (∀ cnt, cnt ∈ cnts → approxPolyDP cnt = Returned (approx cnt)) →
  (∀ cnt, cnt ∈ cnts → length (approx cnt) = 4%nat →
     boundingRect cnt = Returned (rectOf cnt)) →
  collect_screens cnts cl ws
  = Returned
      (cl ++ (approx <$> filter (fun cnt => length (approx cnt) = 4%nat) cnts),
       ws ++ ((fun cnt => (rectOf cnt).1.2)
                <$> filter (fun cnt => length (approx cnt) = 4%nat) cnts)).
Proof.
  revert cl ws. induction cnts as [|cnt cnts IH]; intros cl ws Happrox Hrect; simpl.
  - by rewrite !app_nil_r.
  - rewrite (Happrox cnt) by apply list_elem_of_here. simpl.
    assert (Ha : ∀ c, c ∈ cnts → approxPolyDP c = Returned (approx c))
      by (intros c Hc; by apply Happrox, list_elem_of_further).
    assert (Hb : ∀ c, c ∈ cnts → length (approx c) = 4%nat →
                   boundingRect c = Returned (rectOf c))
      by (intros c Hc; by apply Hrect, list_elem_of_further).
    destruct (Nat.eqb_spec (length (approx cnt)) 4) as [Hfour|Hnot].
    + rewrite (Hrect cnt) by (done || apply list_elem_of_here).
      destruct (rectOf cnt) as [[[X Y] W] Hgt] eqn:Hrc. simpl.
      rewrite IH by done. rewrite filter_cons_True by done.
      rewrite !fmap_cons, Hrc. simpl. by rewrite <- !app_assoc.
    + rewrite IH by done. by rewrite filter_cons_False by done.
Qed.

(** X12: when the polygon approximation and the bounding box return for
    the contours at hand, the loop is a filter: it keeps, in order, the
    approximations that have exactly four vertices, each with the width W of
    the bounding box of its contour, and asks for the bounding box of no
    other contour. *)
Theorem collect_screens_filter (approx : contour → polygon)
    (rectOf : contour → Z * Z * Z * Z) (cnts : list contour) :
  (∀ cnt, cnt ∈ cnts → approxPolyDP cnt = Returned (approx cnt)) →
  (∀ cnt, cnt ∈ cnts → length (approx cnt) = 4%nat →
     boundingRect cnt = Returned (rectOf cnt)) →
  collect_screens cnts [] []
  = Returned
      (approx <$> filter (fun cnt => length (approx cnt) = 4%nat) cnts,
       (fun cnt => (rectOf cnt).1.2)
         <$> filter (fun cnt => length (approx cnt) = 4%nat) cnts).
Proof. intros Ha Hb. by rewrite (collect_screens_acc approx rectOf). Qed.

End CollectFacts.

Lemma collect_screens_filter_witness :
  @collect_screens document_cv2
    [([(9, 9); (209, 12); (207, 150); (8, 148)], 200);
     ([(300, 20); (350, 20); (320, 90)], 50);
     ([(10, 10); (210, 10); (210, 150); (10, 150)], 200)] [] []
  = Returned
      (fst <$> filter (fun cnt : polygon * Z => length cnt.1 = 4%nat)
                 [([(9, 9); (209, 12); (207, 150); (8, 148)], 200);
                  ([(300, 20); (350, 20); (320, 90)], 50);
                  ([(10, 10); (210, 10); (210, 150); (10, 150)], 200)],
       (fun cnt : polygon * Z => (0, 0, cnt.2, 0).1.2)
         <$> filter (fun cnt : polygon * Z => length cnt.1 = 4%nat)
               [([(9, 9); (209, 12); (207, 150); (8, 148)], 200);
                ([(300, 20); (350, 20); (320, 90)], 50);
                ([(10, 10); (210, 10); (210, 150); (10, 150)], 200)]).
Proof.
  apply (@collect_screens_filter document_cv2 fst (fun cnt => (0, 0, cnt.2, 0))).
  - reflexivity.
  - reflexivity.
Defined.

(** ** The path written by save_image *)

Lemma dollar_tail_no_newline (s : string) :
  has_char newline s = false → dollar_tail s = Some EmptyString.
Proof.
  induction s as [|c r IH]; simpl; [done|].
  destruct (Ascii.eqb c newline); simpl; [done|]. exact IH.
Qed.

(** X13: for a path without a dot the pattern finds no match and the
    path computed by [save_image] is the source path itself, with neither
    the suffix nor the extension applied (suffix and extension free of
    backslashes). *)
Theorem new_file_path_no_dot (suffix extension src_file_path : string) :
  has_char backslash suffix = false → has_char backslash extension = false →
  has_char dot src_file_path = false →
  new_file_path suffix extension src_file_path = src_file_path.
Proof.
  intros _ _. unfold new_file_path.
  induction src_file_path as [|c r IH]; simpl; [done|].
  destruct (Ascii.eqb c dot); simpl; [done|]. intros Hr. by rewrite IH.
Qed.

Lemma new_file_path_no_dot_witness :
  new_file_path "-scanned" "jpg" "/tmp/invoice" = "/tmp/invoice"%string.
Proof. apply new_file_path_no_dot; reflexivity. Defined.

(** X14: everything from the first dot of the path on is replaced by the
    suffix, a dot and the extension, directories after that dot included
    (path free of newlines after the dot, suffix and extension free of
    backslashes). *)
Theorem new_file_path_first_dot (suffix extension stem rest : string) :
  has_char backslash suffix = false → has_char backslash extension = false →
  has_char dot stem = false → has_char newline rest = false →
  new_file_path suffix extension (String.append stem (String dot rest))
  = String.append stem (String.append suffix (String dot extension)).
Proof.
  intros _ _ Hstem Hrest. unfold new_file_path.
  induction stem as [|c r IH]; simpl.
  - rewrite (dollar_tail_no_newline rest Hrest).
    induction (String.append suffix (String dot extension)) as [|d t IHt]; simpl; [done|].
    by rewrite IHt.
  - simpl in Hstem. destruct (Ascii.eqb c dot); simpl in *; [done|]. by rewrite IH.
Qed.

Lemma new_file_path_first_dot_witness :
  new_file_path "-warped" "jpg"
    (String.append "/Users/myuser/myfolder/myimage" (String dot "jpg"))
  = String.append "/Users/myuser/myfolder/myimage"
      (String.append "-warped" (String dot "jpg")).
Proof. apply new_file_path_first_dot; reflexivity. Defined.

(** A dot in a directory name, or the dot of a relative path, is the first
    dot. *)
Example new_file_path_relative :
  new_file_path "-scanned" "jpg" "./scans/invoice.png" = "-scanned.jpg"%string ∧
  new_file_path "-scanned" "jpg" "/home/j.doe/invoice.png" = "/home/j-scanned.jpg"%string.
Proof. split; reflexivity. Qed.

(** ** main *)

Section MainFacts.
Context `{Cv2}.
Variable path_exists : string → bool.

Lemma convert_files_app (fs1 fs2 : list string) :
  Forall (fun p => ∃ r, convert_object p None "-scanned" = Returned r) fs1 →
  convert_files (fs1 ++ fs2) = convert_files fs2.
Proof.
  induction fs1 as [|p fs1 IH]; intros Hall; simpl; [done|].
  apply Forall_cons in Hall as [[r Hr] Hall]. rewrite Hr. simpl. by apply IH.
Qed.

(** X15: the value of --extension, once it has passed the schema, has no
    effect on the run: [main] never hands it to [convert_object], which
    always saves with the extension "jpg". *)
Theorem main_ignores_extension (a : arguments) (extension : string) :
  arg_log a = "NOTSET"%string →
  string_in (arg_extension a) extensions = true →
  string_in extension extensions = true →
  main path_exists
    {| FILES := FILES a; arg_help := arg_help a; arg_log := arg_log a;
       arg_extension := extension; arg_version := arg_version a |}
  = main path_exists a.
Proof.
  intros _ Hold Hnew. unfold main, schema_validate.
  cbn [FILES arg_log arg_extension]. by rewrite Hold, Hnew.
Qed.

(** X16: a batch stops at the first file on which [convert_object] raises:
    the exception leaves [main] uncaught and the files after it are not
    processed, whatever they are. *)
Theorem main_stops_at_first_exception (a : arguments)
    (done_files : list string) (file_path : string) (later : list string) (e : exn) :
  arg_log a = "NOTSET"%string →
  schema_validate path_exists a = true →
  FILES a = done_files ++ file_path :: later →
  Forall (fun p => ∃ r, convert_object p None "-scanned" = Returned r) done_files →
  convert_object file_path None "-scanned" = Raised e →
  main path_exists a = Uncaught e.
Proof.
  intros _ Hvalid Hfiles Hdone Hraise. unfold main. rewrite Hvalid. simpl.
  rewrite Hfiles, (convert_files_app _ _ Hdone). simpl. by rewrite Hraise.
Qed.

(** X17: [main] discards what [convert_object] returns: when no call
    raises, the run completes in the same way whether documents were found
    or every call returned None. *)
Theorem main_completes_silently (a : arguments) :
  arg_log a = "NOTSET"%string →
  schema_validate path_exists a = true →
  Forall (fun p => ∃ r, convert_object p None "-scanned" = Returned r) (FILES a) →
  main path_exists a = Completed.
Proof.
  intros _ Hvalid Hall. unfold main. rewrite Hvalid. simpl.
  rewrite <- (app_nil_r (FILES a)), (convert_files_app _ _ Hall). reflexivity.
Qed.

End MainFacts.

Lemma main_ignores_extension_witness :
  @main document_cv2 (fun _ => true)
    {| FILES := ["a.png"%string]; arg_help := false; arg_log := "NOTSET";
       arg_extension := "png"; arg_version := false |}
  = @main document_cv2 (fun _ => true)
      {| FILES := ["a.png"%string]; arg_help := false; arg_log := "NOTSET";
         arg_extension := "jpg"; arg_version := false |}.
Proof.
  apply (@main_ignores_extension document_cv2 (fun _ => true)
           {| FILES := ["a.png"%string]; arg_help := false; arg_log := "NOTSET";
              arg_extension := "jpg"; arg_version := false |} "png");
    reflexivity.
Defined.

Lemma main_stops_at_first_exception_witness :
  @main document_cv2 (fun _ => true)
    {| FILES := ["a.png"; "broken.png"; "c.png"]%string; arg_help := false;
       arg_log := "NOTSET"; arg_extension := "jpg"; arg_version := false |}
  = Uncaught CvError.
Proof.
  apply (@main_stops_at_first_exception document_cv2 (fun _ => true)
           {| FILES := ["a.png"; "broken.png"; "c.png"]%string; arg_help := false;
              arg_log := "NOTSET"; arg_extension := "jpg"; arg_version := false |}
           ["a.png"%string] "broken.png" ["c.png"%string]).
  - reflexivity.
  - reflexivity.
  - reflexivity.
  - repeat constructor. by eexists.
  - reflexivity.
Defined.

Lemma main_completes_silently_witness :
  @main document_cv2 (fun _ => true)
    {| FILES := ["a.png"; "c.png"]%string; arg_help := false;
       arg_log := "NOTSET"; arg_extension := "jpg"; arg_version := false |}
  = Completed.
Proof.
  apply (@main_completes_silently document_cv2 (fun _ => true)).
  - reflexivity.
  - reflexivity.
  - repeat constructor; by eexists.
Defined.

(** ** Source and destination corners agree in order *)

(** X18: for dimensions of at least 1 the destination corners that
    [four_point_transform] builds are themselves in the order that
    [order_points] produces, so each ordered source corner is paired with the
    destination corner of the same name. *)
Theorem dst_rect_is_ordered (w h : Z) :
  1 ≤ w → 1 ≤ h →
  order_points (rect_rows (dst_rect w h)) = Returned (dst_rect w h).
Proof.
  intros Hw Hh.
  apply (order_points_axis_aligned 0 0 (w - 1) (h - 1)); [lia|lia|reflexivity].
Qed.

Lemma dst_rect_is_ordered_witness :
  order_points (rect_rows (dst_rect 100 50)) = Returned (dst_rect 100 50).
Proof. apply dst_rect_is_ordered; lia. Defined.

Lemma int_sqrt_edge_lower (p q : point) :
  Z.abs (p.1 - q.1) ≤ int_sqrt (edge_sq p q) ∧ Z.abs (p.2 - q.2) ≤ int_sqrt (edge_sq p q).
Proof.
  unfold int_sqrt, edge_sq. split.
  - rewrite <- (Z.sqrt_square (Z.abs (p.1 - q.1))) at 1 by lia.
    apply Z.sqrt_le_mono. nia.
  - rewrite <- (Z.sqrt_square (Z.abs (p.2 - q.2))) at 1 by lia.
    apply Z.sqrt_le_mono. nia.
Qed.

(** X19: the destination is never narrower than the horizontal extent of
    the top edge or of the bottom edge, and never lower than the vertical
    extent of the left edge or of the right edge. *)
Theorem dest_dims_cover_extents (r : rect) :
  Z.abs ((rect1 r).1 - (rect0 r).1) ≤ maxWidth r ∧
  Z.abs ((rect2 r).1 - (rect3 r).1) ≤ maxWidth r ∧
  Z.abs ((rect0 r).2 - (rect3 r).2) ≤ maxHeight r ∧
  Z.abs ((rect1 r).2 - (rect2 r).2) ≤ maxHeight r.
Proof.
  destruct r as [tl tr br bl]. unfold maxWidth, maxHeight. simpl.
  destruct (int_sqrt_edge_lower tr tl) as [A _], (int_sqrt_edge_lower br bl) as [B _].
  destruct (int_sqrt_edge_lower tl bl) as [_ C], (int_sqrt_edge_lower tr br) as [_ D].
  lia.
Qed.
